(** * Forward-propagation layers of show-attend-and-tell ([core/layers.py])

    The module is a flat list of functions built from calls into the tensor
    library.  A tensor is kept the way the library keeps it: a shape and a
    row-major buffer.  Library calls that reject their arguments (shape
    mismatch, a reshape that cannot be inferred, an index out of range) are
    partial, so every layer lives in the [option] monad.

    Scalars of dtype float32 are read as real numbers: the development
    verifies the arithmetic graph the layers build, not the rounding of the
    kernels that evaluate it. *)

From Stdlib Require Import List Arith Lia ZArith Bool.
From Stdlib Require Import Reals Lra.
Import ListNotations.

(** ** Tensors *)

Record tensor (A : Type) : Type := mkTensor {
  shape : list nat;
  data : list A
}.

Arguments mkTensor {A} _ _.
Arguments shape {A} _.
Arguments data {A} _.

Definition numel (s : list nat) : nat := fold_right Nat.mul 1 s.

(** [t] has shape [s]: the buffer holds exactly [numel s] scalars. *)
Definition has_shape {A : Type} (t : tensor A) (s : list nat) : Prop :=
  shape t = s /\ length (data t) = numel s.

Definition item (t : tensor R) (p : nat) : R := nth p (data t) 0%R.
Definition item_int (t : tensor Z) (p : nat) : Z := nth p (data t) 0%Z.
Definition item_bool (t : tensor bool) (p : nat) : bool := nth p (data t) false.

(** Row-major addressing of rank-2 and rank-3 tensors. *)
Definition at2 (t : tensor R) (i j : nat) : R :=
  item t (i * nth 1 (shape t) 0 + j).
Definition at3 (t : tensor R) (i j k : nat) : R :=
  item t ((i * nth 1 (shape t) 0 + j) * nth 2 (shape t) 0 + k).

(** Sum of [f 0 .. f (n-1)]. *)
Definition rsum (n : nat) (f : nat -> R) : R :=
  fold_right Rplus 0%R (map f (seq 0 n)).

(** Entry [(n, q)] of the matrix product [X·W]. *)
Definition matprod (X W : tensor R) (n q : nat) : R :=
  rsum (nth 1 (shape X) 0) (fun k => (at2 X n k * at2 W k q)%R).

(** ** The error monad of library calls *)

Definition bind {A B : Type} (m : option A) (k : A -> option B) : option B :=
  match m with
  | Some x => k x
  | None => None
  end.

Notation "x <- m ;; k" := (bind m (fun x => k))
  (at level 61, m at next level, right associativity).
Notation "' pat <- m ;; k" := (bind m (fun x => match x with pat => k end))
  (at level 61, pat pattern, m at next level, right associativity).

(** ** Scalar functions *)

Definition sigmoid (x : R) : R := (1 / (1 + exp (- x)))%R.
Definition relu (x : R) : R := Rmax x 0.

(** ** Tensor library *)

Module tf.

(** [tf.shape(X)[k]]: fails when the rank is too small. *)
Definition shape_at {A : Type} (t : tensor A) (k : nat) : option nat :=
  nth_error (shape t) k.

(** [tf.matmul]: both arguments of rank 2 with matching inner dimension. *)
Definition matmul (a b : tensor R) : option (tensor R) :=
  match shape a, shape b with
  | [n; k], [k'; m] =>
      if k =? k' then
        Some (mkTensor [n; m]
          (map (fun p => rsum k (fun x =>
                  (item a (p / m * k + x) * item b (x * m + p mod m))%R))
               (seq 0 (n * m))))
      else None
  | _, _ => None
  end.

(** Broadcasting of two shapes, both given innermost dimension first:
    dimensions are paired from the right and must be equal or one of
    them 1; a missing dimension counts as 1. *)
Fixpoint broadcast_dims (r1 r2 : list nat) : option (list nat) :=
  match r1, r2 with
  | [], r => Some r
  | r, [] => Some r
  | d1 :: r1', d2 :: r2' =>
      r <- broadcast_dims r1' r2' ;;
      if d1 =? d2 then Some (d1 :: r)
      else if d1 =? 1 then Some (d2 :: r)
      else if d2 =? 1 then Some (d1 :: r)
      else None
  end.

(** Offset in an operand of dimensions [ri] of the element that is used at
    offset [p] of the broadcast result of dimensions [ro] (innermost
    dimension first): a dimension of size 1 is read at index 0. *)
Fixpoint broadcast_index (ro ri : list nat) (p : nat) : nat :=
  match ro, ri with
  | o :: ro', i :: ri' =>
      (if i =? 1 then 0 else p mod o) + i * broadcast_index ro' ri' (p / o)
  | _, _ => 0
  end.

(** Elementwise binary operators ([+], [*]) with broadcasting. *)
Definition binop (f : R -> R -> R) (a b : tensor R) : option (tensor R) :=
  ro <- broadcast_dims (rev (shape a)) (rev (shape b)) ;;
  Some (mkTensor (rev ro)
    (map (fun p => f (item a (broadcast_index ro (rev (shape a)) p))
                     (item b (broadcast_index ro (rev (shape b)) p)))
         (seq 0 (numel (rev ro))))).

Definition add := binop Rplus.
Definition mul := binop Rmult.

(** Elementwise unary functions ([tf.nn.sigmoid], [tf.nn.tanh],
    [tf.nn.relu], [tf.cast]). *)
Definition map_tensor {A B : Type} (f : A -> B) (t : tensor A) : tensor B :=
  mkTensor (shape t) (map f (data t)).

(** [tf.reshape(t, dims)]: the buffer is kept, the shape replaced.  One
    entry of [dims] may be [-1]; the library then infers it from the number
    of elements, and refuses to when the product of the other entries is
    zero or does not divide the number of elements. *)
Definition reshape {A : Type} (t : tensor A) (dims : list Z) : option (tensor A) :=
  if existsb (fun d => (d <? -1)%Z) dims then None
  else
    let product :=
      numel (map Z.to_nat (filter (fun d => negb (d =? -1)%Z) dims)) in
    match count_occ Z.eq_dec dims (-1)%Z with
    | 0 =>
        if product =? numel (shape t)
        then Some (mkTensor (map Z.to_nat dims) (data t))
        else None
    | 1 =>
        if product =? 0 then None
        else
          let missing := numel (shape t) / product in
          if product * missing =? numel (shape t)
          then Some (mkTensor
                 (map (fun d => if (d =? -1)%Z then missing else Z.to_nat d) dims)
                 (data t))
          else None
    | _ => None
    end.

(** [tf.expand_dims(t, axis)]: a dimension of size 1 inserted at [axis]. *)
Definition expand_dims {A : Type} (t : tensor A) (axis : nat) : option (tensor A) :=
  if axis <=? length (shape t)
  then Some (mkTensor (firstn axis (shape t) ++ 1 :: skipn axis (shape t)) (data t))
  else None.

(** Entry [j] of the softmax of row [i] of a buffer with rows of length [l]. *)
Definition softmax_row (t : tensor R) (l i j : nat) : R :=
  (exp (item t (i * l + j)) / rsum l (fun k => exp (item t (i * l + k))))%R.

(** [tf.nn.softmax]: row-wise, on a tensor of rank 2. *)
Definition softmax (t : tensor R) : option (tensor R) :=
  match shape t with
  | [n; l] =>
      Some (mkTensor [n; l]
        (map (fun p => softmax_row t l (p / l) (p mod l)) (seq 0 (n * l))))
  | _ => None
  end.

(** [tf.reduce_sum(t, axis)]: the dimension [axis] is summed away. *)
Definition reduce_sum_axis (t : tensor R) (axis : nat) : option (tensor R) :=
  d <- nth_error (shape t) axis ;;
  let outer := numel (firstn axis (shape t)) in
  let inner := numel (skipn (S axis) (shape t)) in
  Some (mkTensor (firstn axis (shape t) ++ skipn (S axis) (shape t))
    (map (fun p => rsum d (fun j =>
            item t ((p / inner * d + j) * inner + p mod inner)))
         (seq 0 (outer * inner)))).

(** [tf.reduce_sum(t)]: all elements summed into a scalar tensor. *)
Definition reduce_sum (t : tensor R) : tensor R :=
  mkTensor [] [fold_right Rplus 0%R (data t)].

(** [tf.split(split_dim, num_split, value)] (argument order of the release
    the module is written for): [num_split] equal parts along
    [split_dim], which [num_split] must divide. *)
Definition split (split_dim num_split : nat) (value : tensor R)
  : option (list (tensor R)) :=
  d <- nth_error (shape value) split_dim ;;
  if num_split =? 0 then None
  else if d mod num_split =? 0 then
    let w := d / num_split in
    let outer := numel (firstn split_dim (shape value)) in
    let inner := numel (skipn (S split_dim) (shape value)) in
    Some (map (fun q =>
            mkTensor (firstn split_dim (shape value) ++ w :: skipn (S split_dim) (shape value))
              (map (fun p => item value
                      (p / (w * inner) * (d * inner) + q * (w * inner) + p mod (w * inner)))
                   (seq 0 (outer * (w * inner)))))
          (seq 0 num_split))
  else None.

(** [tf.one_hot(indices, depth, on_value=1)]: an integer tensor with one
    more dimension; an index outside [0, depth) gives a row of zeros. *)
Definition one_hot (indices : tensor Z) (depth : nat) : tensor Z :=
  mkTensor (shape indices ++ [depth])
    (map (fun p =>
            if (item_int indices (p / depth) =? Z.of_nat (p mod depth))%Z
            then 1%Z else 0%Z)
         (seq 0 (numel (shape indices) * depth))).

(** [tf.cast(_, tf.float32)] from integers and from booleans. *)
Definition cast_int (t : tensor Z) : tensor R := map_tensor IZR t.
Definition cast_bool (t : tensor bool) : tensor R :=
  map_tensor (fun b : bool => if b then 1%R else 0%R) t.

(** The library's [_flatten_outer_dims]: all dimensions but the last are
    merged by a reshape to [[-1, last]], so a tensor without entries along
    its last dimension, or of rank 0, is rejected. *)
Definition flatten_outer_dims {A : Type} (t : tensor A) : option (tensor A) :=
  match rev (shape t) with
  | [] => None
  | v :: _ => reshape t [(-1)%Z; Z.of_nat v]
  end.

(** [tf.nn.softmax_cross_entropy_with_logits(logits, labels)]: both
    arguments are flattened to matrices, which must have the same size;
    each row costs the cross entropy between the softmax of its logits and
    its labels; the costs are reshaped to the shape of [logits] without
    its last dimension. *)
Definition softmax_cross_entropy_with_logits (logits labels : tensor R)
  : option (tensor R) :=
  flat_logits <- flatten_outer_dims logits ;;
  flat_labels <- flatten_outer_dims labels ;;
  match shape flat_logits, shape flat_labels with
  | [n; v], [n'; v'] =>
      if (n =? n') && (v =? v') then
        reshape
          (mkTensor [n]
             (map (fun i => (- rsum v (fun j =>
                     item flat_labels (i * v + j)
                     * ln (softmax_row flat_logits v i j)))%R)
                  (seq 0 n)))
          (map Z.of_nat (removelast (shape logits)))
      else None
  | _, _ => None
  end.

(** [tf.nn.embedding_lookup(params, ids)]: the rows of [params] selected
    by [ids]; an index outside the table is rejected. *)
Definition embedding_lookup (params : tensor R) (ids : tensor Z)
  : option (tensor R) :=
  match shape params with
  | v :: rest =>
      if forallb (fun i => (0 <=? i)%Z && (i <? Z.of_nat v)%Z) (data ids) then
        let m := numel rest in
        Some (mkTensor (shape ids ++ rest)
          (map (fun p => item params
                  (Z.to_nat (item_int ids (p / m)) * m + p mod m))
               (seq 0 (numel (shape ids) * m))))
      else None
  | [] => None
  end.

(** The generator of [tf.random_uniform]: the samples of [0, 1) it will
    hand out, in order.  Drawing a tensor consumes as many as it has
    elements. *)
Definition rng : Type := nat -> R.

Definition random_uniform (s : list nat) (g : rng) : tensor R * rng :=
  (mkTensor s (map g (seq 0 (numel s))), fun k => g (numel s + k)).

Definition scalar (c : R) : tensor R := mkTensor [] [c].

Definition floor (t : tensor R) : tensor R :=
  map_tensor (fun x => IZR (Zfloor x)) t.

(** [tf.nn.dropout(x, keep_prob)]:
    [x * inv(keep_prob) * floor(keep_prob + random_uniform(shape(x)))]. *)
Definition dropout (x : tensor R) (keep_prob : R) (g : rng)
  : option (tensor R) * rng :=
  let (u, g') := random_uniform (shape x) g in
  (random_tensor <- add (scalar keep_prob) u ;;
   let binary_tensor := floor random_tensor in
   scaled <- mul x (scalar (/ keep_prob)) ;;
   mul scaled binary_tensor,
   g').

End tf.

(** ** Layers *)

Definition affine_forward (X W b : tensor R) : option (tensor R) :=
  XW <- tf.matmul X W ;;
  out <- tf.add XW b ;;
  Some out.

Definition affine_sigmoid_forward (X W b : tensor R) : option (tensor R) :=
  a <- affine_forward X W b ;;
  Some (tf.map_tensor sigmoid a).

Definition affine_relu_forward (X W b : tensor R) : option (tensor R) :=
  a <- affine_forward X W b ;;
  Some (tf.map_tensor relu a).

Definition affine_tanh_forward (X W b : tensor R) : option (tensor R) :=
  a <- affine_forward X W b ;;
  Some (tf.map_tensor tanh a).

(** [init_lstm] is the one layer that draws random numbers: it threads
    the generator. *)
Definition init_lstm (X W1 b1 W2 b2 : tensor R) (use_dropout : bool)
    (g : tf.rng) : option (tensor R) * tf.rng :=
  match affine_relu_forward X W1 b1 with
  | None => (None, g)
  | Some h =>
      let (h', g') :=
        if use_dropout then tf.dropout h (1 / 2) g else (Some h, g) in
      (h <- h' ;; affine_tanh_forward h W2 b2, g')
  end.

Definition word_embedding_forward (X : tensor Z) (W_embed : tensor R)
  : option (tensor R) :=
  tf.embedding_lookup W_embed X.

Definition project_feature (X W : tensor R) : option (tensor R) :=
  L <- tf.shape_at X 1 ;;
  D <- tf.shape_at X 2 ;;
  X <- tf.reshape X [(-1)%Z; Z.of_nat D] ;;
  out <- tf.matmul X W ;;
  tf.reshape out [(-1)%Z; Z.of_nat L; Z.of_nat D].

Definition attention_forward (X X_proj prev_h W_proj_h b_proj W_att : tensor R)
  : option (tensor R * tensor R) :=
  L <- tf.shape_at X 1 ;;
  D <- tf.shape_at X 2 ;;
  h_proj <- tf.matmul prev_h W_proj_h ;;
  h_proj <- tf.expand_dims h_proj 1 ;;
  s <- tf.add X_proj h_proj ;;
  s <- tf.add s b_proj ;;
  let hidden := tf.map_tensor relu s in
  hidden_flat <- tf.reshape hidden [(-1)%Z; Z.of_nat D] ;;
  out <- tf.matmul hidden_flat W_att ;;
  out <- tf.reshape out [(-1)%Z; Z.of_nat L] ;;
  alpha <- tf.softmax out ;;
  alpha_expand <- tf.expand_dims alpha 2 ;;
  weighted <- tf.mul X alpha_expand ;;
  context <- tf.reduce_sum_axis weighted 1 ;;
  Some (context, alpha).

Definition rnn_step_forward (X prev_h context Wx Wh Wz b : tensor R)
  : option (tensor R) :=
  xw <- tf.matmul X Wx ;;
  hw <- tf.matmul prev_h Wh ;;
  s <- tf.add xw hw ;;
  cw <- tf.matmul context Wz ;;
  s <- tf.add s cw ;;
  h <- tf.add (tf.map_tensor tanh s) b ;;
  Some h.

Definition lstm_step_forward (X prev_h prev_c context Wx Wh Wz b : tensor R)
  : option (tensor R * tensor R) :=
  xw <- tf.matmul X Wx ;;
  hw <- tf.matmul prev_h Wh ;;
  s <- tf.add xw hw ;;
  cw <- tf.matmul context Wz ;;
  s <- tf.add s cw ;;
  a <- tf.add s b ;;
  parts <- tf.split 1 4 a ;;
  match parts with
  | [a_i; a_f; a_o; a_g] =>
      let i := tf.map_tensor sigmoid a_i in
      let f := tf.map_tensor sigmoid a_f in
      let o := tf.map_tensor sigmoid a_o in
      let g := tf.map_tensor tanh a_g in
      fc <- tf.mul f prev_c ;;
      ig <- tf.mul i g ;;
      c <- tf.add fc ig ;;
      h <- tf.mul o (tf.map_tensor tanh c) ;;
      Some (h, c)
  | _ => None
  end.

Definition softmax_loss (X : tensor R) (y : tensor Z) (mask : tensor bool)
  : option (tensor R) :=
  V <- tf.shape_at X 1 ;;
  let y_onehot := tf.cast_int (tf.one_hot y V) in
  loss <- tf.softmax_cross_entropy_with_logits X y_onehot ;;
  loss <- tf.mul loss (tf.cast_bool mask) ;;
  Some (tf.reduce_sum loss).

(** ** Vocabulary of the statements *)

(** Cross entropy between the softmax of row [i] of the scores [X] and the
    one-hot row of the label [y[i]], over [V] classes. *)
Definition cross_entropy_row (X : tensor R) (y : tensor Z) (V i : nat) : R :=
  (- rsum V (fun j =>
       IZR (if (item_int y i =? Z.of_nat j)%Z then 1 else 0)
       * ln (tf.softmax_row X V i j)))%R.




(** ** Small tensors for worked examples *)

Module Sample.

Definition zero11 : tensor R := mkTensor [1; 1] [0%R].
Definition one11 : tensor R := mkTensor [1; 1] [1%R].
Definition zero1 : tensor R := mkTensor [1] [0%R].
Definition one1 : tensor R := mkTensor [1] [1%R].

(** A feature map with no spatial positions, of shape (1, 0, 1). *)
Definition empty_features : tensor R := mkTensor [1; 0; 1] [].

(** A generator whose first sample is 0 and whose later samples are 1/2. *)
Definition zero_then_half : tf.rng :=
  fun k => if k =? 0 then 0%R else (1 / 2)%R.

Definition zero14 : tensor R := mkTensor [1; 4] [0%R; 0%R; 0%R; 0%R].
Definition zero4 : tensor R := mkTensor [4] [0%R; 0%R; 0%R; 0%R].
(** A feature map with one position and one feature, of shape (1, 1, 1). *)
Definition one111 : tensor R := mkTensor [1; 1; 1] [1%R].
(** A (1, 2) input, a (2, 1) weight matrix and a bias. *)
Definition row12 : tensor R := mkTensor [1; 2] [1%R; 2%R].
Definition col21 : tensor R := mkTensor [2; 1] [3%R; 4%R].
Definition five1 : tensor R := mkTensor [1] [5%R].
(** A two-word embedding table of width 1, and captions pointing into it. *)
Definition table21 : tensor R := mkTensor [2; 1] [7%R; 8%R].
Definition caption12 : tensor Z := mkTensor [1; 2] [1%Z; 0%Z].
Definition word2 : tensor Z := mkTensor [2] [1%Z; 0%Z].
(** Two rows of scores over two classes, their labels and a mask. *)
Definition scores22 : tensor R := mkTensor [2; 2] [0%R; 0%R; 1%R; 2%R].
Definition labels2 : tensor Z := mkTensor [2] [0%Z; 1%Z].
Definition first_only : tensor bool := mkTensor [2] [true; false].

(** Labels whose second entry is a padding value outside the classes, and
    a mask that keeps both rows. *)
Definition padded2 : tensor Z := mkTensor [2] [0%Z; (-1)%Z].
Definition keep_all : tensor bool := mkTensor [2] [true; true].
(** The (2, 2) identity matrix and a feature map of shape (1, 2, 2). *)
Definition eye22 : tensor R := mkTensor [2; 2] [1%R; 0%R; 0%R; 1%R].
Definition features122 : tensor R := mkTensor [1; 2; 2] [1%R; 2%R; 3%R; 4%R].

(** [scores22] with 3 added to its first row and 1 taken from its second. *)
Definition scores22_shifted : tensor R := mkTensor [2; 2] [3%R; 3%R; 0%R; 1%R].
(** The second time step of [caption12]. *)
Definition step1 : tensor Z := mkTensor [1] [0%Z].

(** Scores without classes, with no row and with two rows, and the
    matching empty labels and masks. *)
Definition scores00 : tensor R := mkTensor [0; 0] [].
Definition labels0 : tensor Z := mkTensor [0] [].
Definition mask0 : tensor bool := mkTensor [0] [].

End Sample.

(** * Verification *)

(** ** Arithmetic of row-major offsets *)

Lemma offset_div (i j m : nat) : j < m -> (i * m + j) / m = i.
Proof.
  intros Hj. rewrite Nat.div_add_l by lia.
  rewrite (Nat.div_small j m Hj). lia.
Qed.

Lemma offset_mod (i j m : nat) : j < m -> (i * m + j) mod m = j.
Proof.
  intros Hj. rewrite Nat.add_comm, Nat.Div0.mod_add.
  now apply Nat.mod_small.
Qed.

Lemma offset_lt (i j n m : nat) : i < n -> j < m -> i * m + j < n * m.
Proof. intros Hi Hj. nia. Qed.

Lemma offset_split (p n m : nat) :
  p < n * m -> p / m < n /\ p mod m < m /\ p = p / m * m + p mod m.
Proof.
  intros Hp. assert (Hm : m <> 0) by (intros ->; lia).
  split; [apply Nat.Div0.div_lt_upper_bound; lia|].
  split; [now apply Nat.mod_upper_bound|].
  rewrite (Nat.div_mod_eq p m) at 1. lia.
Qed.

Lemma numel_app (s1 s2 : list nat) : numel (s1 ++ s2) = numel s1 * numel s2.
Proof.
  induction s1 as [|d s1 IH]; simpl; [lia|].
  fold (numel (s1 ++ s2)) (numel s1). rewrite IH. lia.
Qed.

Lemma numel_rev (s : list nat) : numel (rev s) = numel s.
Proof.
  induction s as [|d s IH]; simpl; [reflexivity|].
  fold (numel s). rewrite numel_app, IH. simpl. lia.
Qed.

Lemma numel_cons (d : nat) (s : list nat) : numel (d :: s) = d * numel s.
Proof. reflexivity. Qed.

Lemma numel_nil : numel [] = 1.
Proof. reflexivity. Qed.

(** ** Buffers built by tabulation *)

Lemma nth_tabulate (A : Type) (f : nat -> A) (n p : nat) (d : A) :
  p < n -> nth p (map f (seq 0 n)) d = f p.
Proof.
  intros Hp. rewrite (nth_indep _ d (f 0)) by now rewrite length_map, length_seq.
  rewrite (map_nth f (seq 0 n) 0 p), seq_nth by exact Hp. reflexivity.
Qed.

Lemma length_tabulate (A : Type) (f : nat -> A) (n : nat) :
  length (map f (seq 0 n)) = n.
Proof. now rewrite length_map, length_seq. Qed.

Lemma tabulate_ext (A : Type) (f g : nat -> A) (n : nat) :
  (forall p, p < n -> f p = g p) -> map f (seq 0 n) = map g (seq 0 n).
Proof.
  intros H. apply map_ext_in. intros p Hp. apply in_seq in Hp. apply H. lia.
Qed.

Lemma rsum_ext (n : nat) (f g : nat -> R) :
  (forall i, i < n -> f i = g i) -> rsum n f = rsum n g.
Proof. intros H. unfold rsum. now rewrite (tabulate_ext _ f g n H). Qed.

Lemma item_tabulate (s : list nat) (f : nat -> R) (n p : nat) :
  p < n -> item (mkTensor s (map f (seq 0 n))) p = f p.
Proof. intros Hp. unfold item. simpl. now apply nth_tabulate. Qed.

Lemma item_map (f : R -> R) (t : tensor R) (p : nat) :
  p < length (data t) -> item (tf.map_tensor f t) p = f (item t p).
Proof.
  intros Hp. unfold item, tf.map_tensor. simpl.
  rewrite (nth_indep _ 0%R (f 0%R)) by now rewrite length_map.
  apply map_nth.
Qed.

Lemma has_shape_map {A B : Type} (f : A -> B) (t : tensor A) (s : list nat) :
  has_shape t s -> has_shape (tf.map_tensor f t) s.
Proof.
  intros [Hs Hl]. split; simpl; [exact Hs|]. now rewrite length_map.
Qed.

(** ** Specifications of the library calls *)

Lemma matmul_spec (a b : tensor R) (n k m : nat) :
  shape a = [n; k] -> shape b = [k; m] ->
  exists c, tf.matmul a b = Some c /\ has_shape c [n; m] /\
    forall i j, i < n -> j < m ->
      item c (i * m + j)
      = rsum k (fun x => (item a (i * k + x) * item b (x * m + j))%R).
Proof.
  intros Ha Hb. unfold tf.matmul. rewrite Ha, Hb, Nat.eqb_refl.
  eexists. split; [reflexivity|]. split.
  - split; [reflexivity|]. simpl. rewrite length_tabulate. lia.
  - intros i j Hi Hj. rewrite item_tabulate by now apply offset_lt.
    now rewrite offset_div, offset_mod.
Qed.

Lemma broadcast_dims_same (r : list nat) : tf.broadcast_dims r r = Some r.
Proof.
  induction r as [|d r IH]; simpl; [reflexivity|].
  now rewrite IH; simpl; rewrite Nat.eqb_refl.
Qed.

Lemma broadcast_dims_nil_r (r : list nat) : tf.broadcast_dims r [] = Some r.
Proof. now destruct r. Qed.

Lemma broadcast_index_nil_r (r : list nat) (p : nat) :
  tf.broadcast_index r [] p = 0.
Proof. now destruct r. Qed.

Lemma select_same (d p : nat) : (if d =? 1 then 0 else p mod d) = p mod d.
Proof.
  destruct (Nat.eqb_spec d 1) as [->|]; [|reflexivity].
  now rewrite Nat.mod_1_r.
Qed.

Lemma broadcast_index_same (r : list nat) (p : nat) :
  p < numel r -> tf.broadcast_index r r p = p.
Proof.
  revert p. induction r as [|d r IH]; intros p Hp; simpl.
  - simpl in Hp. lia.
  - rewrite numel_cons in Hp.
    assert (Hd : d <> 0) by (intros ->; lia).
    rewrite select_same, IH.
    + rewrite (Nat.div_mod_eq p d) at 3. lia.
    + apply Nat.Div0.div_lt_upper_bound. lia.
Qed.

(** Operands of the same shape. *)
Lemma binop_same_spec (f : R -> R -> R) (a b : tensor R) (s : list nat) :
  shape a = s -> shape b = s ->
  exists c, tf.binop f a b = Some c /\ has_shape c s /\
    forall p, p < numel s -> item c p = f (item a p) (item b p).
Proof.
  intros Ha Hb. unfold tf.binop. rewrite Ha, Hb, broadcast_dims_same. simpl.
  rewrite rev_involutive.
  eexists. split; [reflexivity|]. split.
  - split; [reflexivity|]. simpl. now rewrite length_tabulate.
  - intros p Hp. rewrite item_tabulate by exact Hp.
    now rewrite broadcast_index_same by now rewrite numel_rev.
Qed.

(** A vector broadcast along the innermost dimension (a bias). *)
Lemma binop_bias_spec (f : R -> R -> R) (a b : tensor R) (s : list nat) (m : nat) :
  shape a = s ++ [m] -> shape b = [m] ->
  exists c, tf.binop f a b = Some c /\ has_shape c (s ++ [m]) /\
    forall p, p < numel (s ++ [m]) -> item c p = f (item a p) (item b (p mod m)).
Proof.
  intros Ha Hb. unfold tf.binop. rewrite Ha, Hb, rev_app_distr. simpl.
  rewrite broadcast_dims_nil_r. simpl. rewrite Nat.eqb_refl. simpl.
  rewrite rev_involutive.
  eexists. split; [reflexivity|]. split.
  - split; [reflexivity|]. simpl. now rewrite length_tabulate.
  - intros p Hp. rewrite item_tabulate by exact Hp.
    rewrite !select_same, broadcast_index_nil_r.
    replace (p mod m + m * tf.broadcast_index (rev s) (rev s) (p / m)) with p.
    + f_equal. f_equal. lia.
    + rewrite numel_app in Hp. simpl in Hp.
      assert (Hm : m <> 0) by (intros ->; lia).
      rewrite broadcast_index_same.
      * rewrite (Nat.div_mod_eq p m) at 1. lia.
      * rewrite numel_rev. apply Nat.Div0.div_lt_upper_bound. lia.
Qed.

Lemma at2_item (t : tensor R) (n m i j : nat) :
  shape t = [n; m] -> at2 t i j = item t (i * m + j).
Proof. intros H. unfold at2. now rewrite H. Qed.

Lemma at3_item (t : tensor R) (n l d i j k : nat) :
  shape t = [n; l; d] -> at3 t i j k = item t ((i * l + j) * d + k).
Proof. intros H. unfold at3. now rewrite H. Qed.

Lemma matprod_item (X W : tensor R) (n k m i j : nat) :
  shape X = [n; k] -> shape W = [k; m] ->
  matprod X W i j
  = rsum k (fun x => (item X (i * k + x) * item W (x * m + j))%R).
Proof.
  intros HX HW. unfold matprod. rewrite HX. simpl.
  apply rsum_ext. intros x _.
  now rewrite (at2_item X n k), (at2_item W k m).
Qed.

(** ** Affine heads *)

Lemma affine_forward_elts (X W b : tensor R) (N H V : nat) :
  shape X = [N; H] -> shape W = [H; V] -> shape b = [V] ->
  exists out, affine_forward X W b = Some out /\ has_shape out [N; V] /\
    forall n v, n < N -> v < V ->
      at2 out n v = (matprod X W n v + item b v)%R.
Proof.
  intros HX HW Hb.
  destruct (matmul_spec X W N H V HX HW) as (xw & E1 & [S1 L1] & I1).
  destruct (binop_bias_spec Rplus xw b [N] V S1 Hb) as (out & E2 & [S2 L2] & I2).
  exists out. unfold affine_forward, tf.add. rewrite E1. simpl. rewrite E2. simpl.
  split; [reflexivity|]. split; [now split|].
  intros n v Hn Hv. rewrite (at2_item out N V) by exact S2. rewrite I2.
  - rewrite offset_mod, I1 by assumption. f_equal.
    symmetry. now apply (matprod_item X W N H V).
  - simpl. pose proof (offset_lt n v N V Hn Hv). lia.
Qed.

Lemma affine_activation_elts (act : R -> R) (a : tensor R) (N V : nat) :
  has_shape a [N; V] ->
  has_shape (tf.map_tensor act a) [N; V] /\
  forall n v, n < N -> v < V ->
    at2 (tf.map_tensor act a) n v = act (at2 a n v).
Proof.
  intros Ha. split; [now apply has_shape_map|].
  intros n v Hn Hv. destruct Ha as [S L].
  rewrite (at2_item (tf.map_tensor act a) N V), (at2_item a N V) by exact S.
  apply item_map. rewrite L. simpl. pose proof (offset_lt n v N V Hn Hv). lia.
Qed.

(** C7. For [X] of shape (N, H), [W] of shape (H, V) and [b] of shape (V,),
    [affine_forward] returns the tensor of shape (N, V) with entries
    [X·W + b], the bias broadcast over the rows, and
    [affine_sigmoid_forward], [affine_relu_forward], [affine_tanh_forward]
    return sigmoid, relu and tanh of that tensor, entry by entry. *)
Theorem affine_heads_spec (X W b : tensor R) (N H V : nat) :
  has_shape X [N; H] -> has_shape W [H; V] -> has_shape b [V] ->
  exists out,
    affine_forward X W b = Some out /\ has_shape out [N; V] /\
    (forall n v, n < N -> v < V ->
       at2 out n v = (matprod X W n v + item b v)%R) /\
    exists s r t,
      affine_sigmoid_forward X W b = Some s /\ has_shape s [N; V] /\
      affine_relu_forward X W b = Some r /\ has_shape r [N; V] /\
      affine_tanh_forward X W b = Some t /\ has_shape t [N; V] /\
      forall n v, n < N -> v < V ->
        at2 s n v = sigmoid (at2 out n v) /\
        at2 r n v = relu (at2 out n v) /\
        at2 t n v = tanh (at2 out n v).
Proof.
  intros [HX _] [HW _] [Hb _].
  destruct (affine_forward_elts X W b N H V HX HW Hb) as (out & E & So & Io).
  exists out. split; [exact E|]. split; [exact So|]. split; [exact Io|].
  exists (tf.map_tensor sigmoid out), (tf.map_tensor relu out),
         (tf.map_tensor tanh out).
  unfold affine_sigmoid_forward, affine_relu_forward, affine_tanh_forward.
  rewrite E. simpl.
  destruct (affine_activation_elts sigmoid out N V So) as [Ss Is].
  destruct (affine_activation_elts relu out N V So) as [Sr Ir].
  destruct (affine_activation_elts tanh out N V So) as [St It].
  repeat (split; [reflexivity || assumption|]).
  intros n v Hn Hv. now rewrite Is, Ir, It.
Qed.

(** ** Recurrent steps *)

(** The sum of the three projections that both recurrent steps start
    with, whatever is done with it afterwards. *)
Lemma recurrent_input_spec (X prev_h context Wx Wh Wz : tensor R)
    (N M H D K : nat) :
  shape X = [N; M] -> shape prev_h = [N; H] -> shape context = [N; D] ->
  shape Wx = [M; K] -> shape Wh = [H; K] -> shape Wz = [D; K] ->
  exists s, has_shape s [N; K] /\
    (forall n q, n < N -> q < K ->
       at2 s n q
       = (matprod X Wx n q + matprod prev_h Wh n q + matprod context Wz n q)%R) /\
    forall (B : Type) (k : tensor R -> option B),
      (xw <- tf.matmul X Wx ;;
       hw <- tf.matmul prev_h Wh ;;
       s <- tf.add xw hw ;;
       cw <- tf.matmul context Wz ;;
       s <- tf.add s cw ;;
       k s) = k s.
Proof.
  intros HX Hh Hc HWx HWh HWz.
  destruct (matmul_spec X Wx N M K HX HWx) as (xw & E1 & [S1 _] & I1).
  destruct (matmul_spec prev_h Wh N H K Hh HWh) as (hw & E2 & [S2 _] & I2).
  destruct (binop_same_spec Rplus xw hw [N; K] S1 S2) as (s1 & E3 & [S3 _] & I3).
  destruct (matmul_spec context Wz N D K Hc HWz) as (cw & E4 & [S4 _] & I4).
  destruct (binop_same_spec Rplus s1 cw [N; K] S3 S4) as (s2 & E5 & S5 & I5).
  exists s2. split; [exact S5|]. split.
  - intros n q Hn Hq. destruct S5 as [S5 _].
    assert (Hp : n * K + q < numel [N; K]).
    { simpl. pose proof (offset_lt n q N K Hn Hq). lia. }
    rewrite (at2_item s2 N K) by exact S5.
    rewrite I5, I3, I1, I2, I4 by assumption.
    now rewrite (matprod_item X Wx N M K), (matprod_item prev_h Wh N H K),
      (matprod_item context Wz N D K).
  - intros B k. unfold tf.add. rewrite E1. simpl. rewrite E2. simpl.
    rewrite E3. simpl. rewrite E4. simpl. now rewrite E5.
Qed.

(** What [rnn_step_forward] computes: the bias is added to the result of
    [tanh]. *)
Lemma rnn_step_forward_elts (X prev_h context Wx Wh Wz b : tensor R)
    (N M H D : nat) :
  shape X = [N; M] -> shape prev_h = [N; H] -> shape context = [N; D] ->
  shape Wx = [M; H] -> shape Wh = [H; H] -> shape Wz = [D; H] ->
  shape b = [H] ->
  exists h, rnn_step_forward X prev_h context Wx Wh Wz b = Some h /\
    has_shape h [N; H] /\
    forall n j, n < N -> j < H ->
      at2 h n j
      = (tanh (matprod X Wx n j + matprod prev_h Wh n j + matprod context Wz n j)
         + item b j)%R.
Proof.
  intros HX Hh Hc HWx HWh HWz Hb.
  destruct (recurrent_input_spec X prev_h context Wx Wh Wz N M H D H
              HX Hh Hc HWx HWh HWz) as (s & Ss & Is & Ek).
  destruct (affine_activation_elts tanh s N H Ss) as [[St Lt] It].
  destruct (binop_bias_spec Rplus (tf.map_tensor tanh s) b [N] H St Hb)
    as (h & E & [Sh Lh] & Ih).
  exists h. unfold rnn_step_forward. rewrite Ek. unfold tf.add. rewrite E.
  split; [reflexivity|]. split; [now split|].
  intros n j Hn Hj. rewrite (at2_item h N H) by exact Sh. rewrite Ih.
  - rewrite offset_mod by exact Hj.
    rewrite <- (at2_item (tf.map_tensor tanh s) N H) by exact St.
    now rewrite It, Is.
  - simpl. pose proof (offset_lt n j N H Hn Hj). lia.
Qed.

Lemma tanh_lt_1 (x : R) : (tanh x < 1)%R.
Proof.
  unfold tanh, sinh, cosh.
  pose proof (exp_pos x) as Hp. pose proof (exp_pos (- x)) as Hn.
  apply (Rmult_lt_reg_r ((exp x + exp (- x)) / 2)); [lra|].
  unfold Rdiv at 1. rewrite Rmult_assoc, Rinv_l by lra. lra.
Qed.

Lemma tanh_0 : tanh 0 = 0%R.
Proof. unfold tanh. rewrite sinh_0, cosh_0. lra. Qed.

Lemma matprod_zero11 (X : tensor R) (q : nat) :
  matprod Sample.zero11 X 0 q = 0%R.
Proof. unfold matprod, rsum, at2, item. simpl. lra. Qed.

(** C4. On the batch of one all-zero word vector, hidden state and
    context, with all-zero weights and bias [1], [rnn_step_forward]
    returns [tanh 0 + 1 = 1]: the bias is added after [tanh], not inside
    it, so the result differs from [tanh (X·Wx + prev_h·Wh + context·Wz + b)],
    which is below 1. *)
Theorem rnn_step_forward_bias_after_tanh :
  exists h,
    rnn_step_forward Sample.zero11 Sample.zero11 Sample.zero11
      Sample.zero11 Sample.zero11 Sample.zero11 Sample.one1 = Some h /\
    has_shape h [1; 1] /\
    at2 h 0 0 = 1%R /\
    (tanh (matprod Sample.zero11 Sample.zero11 0 0
           + matprod Sample.zero11 Sample.zero11 0 0
           + matprod Sample.zero11 Sample.zero11 0 0
           + item Sample.one1 0) < at2 h 0 0)%R.
Proof.
  destruct (rnn_step_forward_elts Sample.zero11 Sample.zero11 Sample.zero11
              Sample.zero11 Sample.zero11 Sample.zero11 Sample.one1 1 1 1 1)
    as (h & E & Sh & Ih); try reflexivity.
  exists h. split; [exact E|]. split; [exact Sh|].
  assert (H1 : at2 h 0 0 = 1%R).
  { rewrite Ih by lia. rewrite !matprod_zero11.
    replace (0 + 0 + 0)%R with 0%R by lra. rewrite tanh_0.
    unfold item. simpl. lra. }
  split; [exact H1|]. rewrite H1. apply tanh_lt_1.
Qed.

(** [tf.split(1, 4, a)] on a matrix with [4 * H] columns. *)
Lemma split4_spec (a : tensor R) (N H : nat) :
  shape a = [N; 4 * H] ->
  exists a_i a_f a_o a_g,
    tf.split 1 4 a = Some [a_i; a_f; a_o; a_g] /\
    has_shape a_i [N; H] /\ has_shape a_f [N; H] /\
    has_shape a_o [N; H] /\ has_shape a_g [N; H] /\
    forall n j, n < N -> j < H ->
      at2 a_i n j = at2 a n j /\
      at2 a_f n j = at2 a n (H + j) /\
      at2 a_o n j = at2 a n (2 * H + j) /\
      at2 a_g n j = at2 a n (3 * H + j).
Proof.
  intros Ha. unfold tf.split. rewrite Ha.
  assert (Hmod : (4 * H) mod 4 = 0) by (rewrite Nat.mul_comm; apply Nat.Div0.mod_mul).
  assert (Hdiv : (4 * H) / 4 = H) by (rewrite Nat.mul_comm; now apply Nat.div_mul).
  remember (4 * H) as K eqn:HK.
  cbn [nth_error bind]. change (4 =? 0) with false. cbv iota.
  rewrite Hmod, Hdiv. cbn [Nat.eqb firstn skipn seq map numel fold_right app].
  rewrite !Nat.mul_1_r.
  do 4 eexists. split; [reflexivity|].
  repeat (split; [split; [reflexivity| cbn [data]; rewrite length_tabulate;
                                      cbn [numel fold_right]; lia]|]).
  intros n j Hn Hj.
  pose proof (offset_lt n j N H Hn Hj) as Hp.
  unfold at2. cbn [shape nth]. rewrite Ha. cbn [nth].
  rewrite !item_tabulate by exact Hp.
  rewrite offset_div, offset_mod by exact Hj.
  repeat split; f_equal; subst K; lia.
Qed.

Lemma at2_map (act : R -> R) (t : tensor R) (N V n v : nat) :
  has_shape t [N; V] -> n < N -> v < V ->
  at2 (tf.map_tensor act t) n v = act (at2 t n v).
Proof.
  intros Ht Hn Hv. now apply (affine_activation_elts act t N V Ht).
Qed.

Lemma at2_binop_same (f : R -> R -> R) (a b c : tensor R) (N V n v : nat) :
  shape a = [N; V] -> shape b = [N; V] -> shape c = [N; V] ->
  (forall p, p < numel [N; V] -> item c p = f (item a p) (item b p)) ->
  n < N -> v < V ->
  at2 c n v = f (at2 a n v) (at2 b n v).
Proof.
  intros Sa Sb Sc Ic Hn Hv.
  rewrite (at2_item a N V), (at2_item b N V), (at2_item c N V) by assumption.
  apply Ic. simpl. pose proof (offset_lt n v N V Hn Hv). lia.
Qed.

(** C1. For inputs of the documented shapes [lstm_step_forward] returns
    [(h, c)], both of shape (N, H), with
    [a = X·Wx + prev_h·Wh + context·Wz + b] cut column-wise into the four
    blocks [a_i, a_f, a_o, a_g], [i = sigmoid a_i], [f = sigmoid a_f],
    [o = sigmoid a_o], [g = tanh a_g], [c = f * prev_c + i * g] and
    [h = o * tanh c]. *)
Theorem lstm_step_forward_spec
    (X prev_h prev_c context Wx Wh Wz b : tensor R) (N M H D : nat) :
  has_shape X [N; M] -> has_shape prev_h [N; H] -> has_shape prev_c [N; H] ->
  has_shape context [N; D] ->
  has_shape Wx [M; 4 * H] -> has_shape Wh [H; 4 * H] ->
  has_shape Wz [D; 4 * H] -> has_shape b [4 * H] ->
  exists h c,
    lstm_step_forward X prev_h prev_c context Wx Wh Wz b = Some (h, c) /\
    has_shape h [N; H] /\ has_shape c [N; H] /\
    forall n j, n < N -> j < H ->
      let a q := (matprod X Wx n q + matprod prev_h Wh n q
                  + matprod context Wz n q + item b q)%R in
      let i := sigmoid (a j) in
      let f := sigmoid (a (H + j)) in
      let o := sigmoid (a (2 * H + j)) in
      let g := tanh (a (3 * H + j)) in
      at2 c n j = (f * at2 prev_c n j + i * g)%R /\
      at2 h n j = (o * tanh (at2 c n j))%R.
Proof.
  intros [HX _] [Hh _] [Hpc _] [Hc _] [HWx _] [HWh _] [HWz _] [Hb _].
  destruct (recurrent_input_spec X prev_h context Wx Wh Wz N M H D (4 * H)
              HX Hh Hc HWx HWh HWz) as (s & [Ss Ls] & Is & Ek).
  destruct (binop_bias_spec Rplus s b [N] (4 * H) Ss Hb)
    as (a & Ea & [Sa La] & Ia).
  destruct (split4_spec a N H Sa)
    as (a_i & a_f & a_o & a_g & Esp & Si & Sf & So & Sg & Isp).
  pose proof (has_shape_map sigmoid a_i [N; H] Si) as [Si' _].
  pose proof (has_shape_map sigmoid a_f [N; H] Sf) as [Sf' _].
  pose proof (has_shape_map sigmoid a_o [N; H] So) as [So' _].
  pose proof (has_shape_map tanh a_g [N; H] Sg) as [Sg' _].
  destruct (binop_same_spec Rmult (tf.map_tensor sigmoid a_f) prev_c [N; H] Sf' Hpc)
    as (fc & Efc & [Sfc Lfc] & Ifc).
  destruct (binop_same_spec Rmult (tf.map_tensor sigmoid a_i)
              (tf.map_tensor tanh a_g) [N; H] Si' Sg')
    as (ig & Eig & [Sig Lig] & Iig).
  destruct (binop_same_spec Rplus fc ig [N; H] Sfc Sig)
    as (c & Ec & [Sc Lc] & Ic).
  pose proof (has_shape_map tanh c [N; H] (conj Sc Lc)) as [Stc _].
  destruct (binop_same_spec Rmult (tf.map_tensor sigmoid a_o)
              (tf.map_tensor tanh c) [N; H] So' Stc)
    as (h & Eh & [Sh Lh] & Ih).
  exists h, c. split.
  { unfold lstm_step_forward. rewrite Ek. unfold tf.add, tf.mul in *.
    rewrite Ea. simpl. rewrite Esp. simpl. rewrite Efc. simpl.
    rewrite Eig. simpl. rewrite Ec. simpl. now rewrite Eh. }
  split; [now split|]. split; [now split|].
  intros n j Hn Hj a0 i f o g.
  assert (Ha : forall q, q < 4 * H -> at2 a n q = a0 q).
  { intros q Hq. unfold a0. rewrite (at2_item a N (4 * H)) by exact Sa.
    rewrite Ia.
    - rewrite offset_mod by exact Hq.
      rewrite <- (at2_item s N (4 * H)) by exact Ss. now rewrite Is.
    - rewrite numel_app. cbn [numel fold_right].
      pose proof (offset_lt n q N (4 * H) Hn Hq). lia. }
  destruct (Isp n j Hn Hj) as (Ei & Ef & Eo & Eg).
  assert (Hc' : at2 c n j = (f * at2 prev_c n j + i * g)%R).
  { rewrite (at2_binop_same Rplus fc ig c N H n j Sfc Sig Sc Ic Hn Hj).
    rewrite (at2_binop_same Rmult _ _ fc N H n j Sf' Hpc Sfc Ifc Hn Hj).
    rewrite (at2_binop_same Rmult _ _ ig N H n j Si' Sg' Sig Iig Hn Hj).
    rewrite !(at2_map _ _ N H) by assumption.
    rewrite Ei, Ef, Eg, !Ha by lia. reflexivity. }
  split; [exact Hc'|].
  rewrite (at2_binop_same Rmult _ _ h N H n j So' Stc Sh Ih Hn Hj).
  rewrite !(at2_map _ _ N H) by (assumption || now split).
  rewrite Eo, Ha by lia. reflexivity.
Qed.

(** ** Reshaping with an inferred leading dimension *)

Lemma reshape_dims_nonneg (dims : list nat) :
  existsb (fun d => (d <? -1)%Z) (map Z.of_nat dims) = false.
Proof.
  induction dims as [|d dims IH]; simpl; [reflexivity|].
  rewrite IH, orb_false_r. apply Z.ltb_ge. lia.
Qed.

Lemma reshape_dims_known (dims : list nat) :
  map Z.to_nat (filter (fun d => negb (d =? -1)%Z) (map Z.of_nat dims)) = dims.
Proof.
  induction dims as [|d dims IH]; simpl; [reflexivity|].
  destruct (Z.eqb_spec (Z.of_nat d) (-1)) as [E|_]; [lia|]. simpl.
  now rewrite IH, Nat2Z.id.
Qed.

Lemma reshape_dims_count (dims : list nat) :
  count_occ Z.eq_dec (map Z.of_nat dims) (-1)%Z = 0.
Proof.
  induction dims as [|d dims IH]; simpl; [reflexivity|].
  destruct (Z.eq_dec (Z.of_nat d) (-1)) as [E|_]; [lia|exact IH].
Qed.

Lemma reshape_dims_fill (dims : list nat) (missing : nat) :
  map (fun d => if (d =? -1)%Z then missing else Z.to_nat d) (map Z.of_nat dims)
  = dims.
Proof.
  induction dims as [|d dims IH]; simpl; [reflexivity|].
  destruct (Z.eqb_spec (Z.of_nat d) (-1)) as [E|_]; [lia|].
  now rewrite IH, Nat2Z.id.
Qed.

Lemma reshape_unfold {A : Type} (t : tensor A) (dims : list nat) :
  tf.reshape t ((-1)%Z :: map Z.of_nat dims)
  = if numel dims =? 0 then None
    else if numel dims * (numel (shape t) / numel dims) =? numel (shape t)
         then Some (mkTensor (numel (shape t) / numel dims :: dims) (data t))
         else None.
Proof.
  unfold tf.reshape.
  cbn [existsb filter count_occ map].
  change (-1 <? -1)%Z with false. change (-1 =? -1)%Z with true.
  cbn [orb negb]. rewrite reshape_dims_nonneg, reshape_dims_known.
  destruct (Z.eq_dec (-1) (-1)) as [_|C]; [|contradiction].
  now rewrite reshape_dims_count, reshape_dims_fill.
Qed.

(** The reshape succeeds when the known dimensions are positive and
    account for the size of the buffer. *)
Lemma reshape_infer_spec {A : Type} (t : tensor A) (n : nat) (dims : list nat) :
  numel (shape t) = n * numel dims -> numel dims <> 0 ->
  tf.reshape t ((-1)%Z :: map Z.of_nat dims) = Some (mkTensor (n :: dims) (data t)).
Proof.
  intros Hn Hd. rewrite reshape_unfold.
  destruct (Nat.eqb_spec (numel dims) 0) as [E|_]; [contradiction|].
  rewrite Hn, Nat.div_mul by exact Hd.
  now rewrite (Nat.mul_comm (numel dims) n), Nat.eqb_refl.
Qed.

(** It is refused when one of the known dimensions is zero. *)
Lemma reshape_infer_empty {A : Type} (t : tensor A) (dims : list nat) :
  numel dims = 0 -> tf.reshape t ((-1)%Z :: map Z.of_nat dims) = None.
Proof. intros Hd. rewrite reshape_unfold. now rewrite Hd. Qed.

Lemma reshape2_spec {A : Type} (t : tensor A) (n d : nat) :
  numel (shape t) = n * d -> 0 < d ->
  tf.reshape t [(-1)%Z; Z.of_nat d] = Some (mkTensor [n; d] (data t)).
Proof.
  intros Hn Hd. apply (reshape_infer_spec t n [d]); cbn [numel fold_right]; lia.
Qed.

Lemma reshape3_spec {A : Type} (t : tensor A) (n l d : nat) :
  numel (shape t) = n * l * d -> 0 < l -> 0 < d ->
  tf.reshape t [(-1)%Z; Z.of_nat l; Z.of_nat d]
  = Some (mkTensor [n; l; d] (data t)).
Proof.
  intros Hn Hl Hd.
  apply (reshape_infer_spec t n [l; d]); cbn [numel fold_right]; nia.
Qed.

Lemma reshape2_empty {A : Type} (t : tensor A) :
  tf.reshape t [(-1)%Z; Z.of_nat 0] = None.
Proof. now apply (reshape_infer_empty t [0]). Qed.

Lemma reshape3_empty {A : Type} (t : tensor A) (l d : nat) :
  l = 0 \/ d = 0 ->
  tf.reshape t [(-1)%Z; Z.of_nat l; Z.of_nat d] = None.
Proof.
  intros H. apply (reshape_infer_empty t [l; d]). cbn [numel fold_right].
  destruct H as [-> | ->]; lia.
Qed.

(** ** Feature projection *)

Lemma project_feature_shape_at (X : tensor R) (N L D : nat) :
  shape X = [N; L; D] ->
  forall (B : Type) (k : nat -> nat -> option B),
    (L <- tf.shape_at X 1 ;; D <- tf.shape_at X 2 ;; k L D) = k L D.
Proof. intros HX B k. unfold tf.shape_at. now rewrite HX. Qed.

Lemma numel3 (N L D : nat) : numel [N; L; D] = N * L * D.
Proof. cbn [numel fold_right]. lia. Qed.

Lemma numel2 (N D : nat) : numel [N; D] = N * D.
Proof. cbn [numel fold_right]. lia. Qed.

Lemma project_feature_elts (X W : tensor R) (N L D : nat) :
  has_shape X [N; L; D] -> shape W = [D; D] -> 0 < L -> 0 < D ->
  exists out, project_feature X W = Some out /\ has_shape out [N; L; D] /\
    forall n l d, n < N -> l < L -> d < D ->
      at3 out n l d = rsum D (fun k => (at3 X n l k * at2 W k d)%R).
Proof.
  intros [HX LX] HW HL HD.
  unfold project_feature. rewrite (project_feature_shape_at X N L D HX).
  rewrite (reshape2_spec X (N * L) D) by (rewrite ?HX, ?numel3; lia).
  cbn [bind].
  destruct (matmul_spec (mkTensor [N * L; D] (data X)) W (N * L) D D eq_refl HW)
    as (out & E & [So Lo] & Io).
  rewrite E. cbn [bind].
  rewrite (reshape3_spec out N L D) by (rewrite ?So, ?numel2; lia).
  eexists. split; [reflexivity|]. split.
  - split; [reflexivity|]. cbn [data]. rewrite Lo, numel2, numel3. lia.
  - intros n l d Hn Hl Hd. rewrite (at3_item _ N L D) by reflexivity.
    change (item (mkTensor [N; L; D] (data out)) ((n * L + l) * D + d))
      with (item out ((n * L + l) * D + d)).
    rewrite Io by (assumption || nia).
    apply rsum_ext. intros k _.
    now rewrite (at3_item X N L D), (at2_item W D D).
Qed.

Lemma project_feature_fails (X W : tensor R) (N L D : nat) :
  shape X = [N; L; D] -> shape W = [D; D] -> L = 0 \/ D = 0 ->
  project_feature X W = None.
Proof.
  intros HX HW HLD.
  unfold project_feature. rewrite (project_feature_shape_at X N L D HX).
  destruct (Nat.eq_dec D 0) as [->|HD]; [now rewrite reshape2_empty|].
  destruct HLD as [-> | ->]; [|contradiction].
  rewrite (reshape2_spec X 0 D) by (rewrite ?HX, ?numel3; lia). cbn [bind].
  destruct (matmul_spec (mkTensor [0; D] (data X)) W 0 D D eq_refl HW)
    as (out & E & _ & _).
  rewrite E. cbn [bind]. apply reshape3_empty. now left.
Qed.

(** C8 (amended). For [X] of shape (N, L, D) and [W] of shape (D, D) with
    [L >= 1] and [D >= 1], [project_feature] returns a tensor of shape
    (N, L, D) whose position [(n, l)] is [X[n, l]·W]; when [L = 0] or
    [D = 0] the call fails, because the reshape cannot infer its leading
    dimension. *)
Theorem project_feature_spec (X W : tensor R) (N L D : nat) :
  has_shape X [N; L; D] -> has_shape W [D; D] ->
  (0 < L -> 0 < D ->
   exists out, project_feature X W = Some out /\ has_shape out [N; L; D] /\
     forall n l d, n < N -> l < L -> d < D ->
       at3 out n l d = rsum D (fun k => (at3 X n l k * at2 W k d)%R)) /\
  (L = 0 \/ D = 0 -> project_feature X W = None).
Proof.
  intros HX [HW _]. split.
  - intros HL HD. now apply project_feature_elts.
  - intros HLD. destruct HX as [HX _].
    now apply (project_feature_fails X W N L D).
Qed.

(** C8, as stated, fails on a feature map without spatial positions: the
    shapes are the documented ones and no tensor is returned. *)
Lemma project_feature_rejects_empty :
  has_shape Sample.empty_features [1; 0; 1] /\
  has_shape Sample.one11 [1; 1] /\
  project_feature Sample.empty_features Sample.one11 = None.
Proof.
  split; [now split|]. split; [now split|].
  apply (project_feature_fails _ _ 1 0 1); [reflexivity|reflexivity|now left].
Qed.

(** ** Broadcasting in rank 3 *)

Lemma offset3_lt (n l d N L D : nat) :
  n < N -> l < L -> d < D -> (n * L + l) * D + d < N * L * D.
Proof. intros Hn Hl Hd. apply offset_lt; [now apply offset_lt|exact Hd]. Qed.

Ltac broadcast_against_one d r :=
  match goal with
  | |- context [if d =? 1 then ?x else ?y] =>
      replace (if d =? 1 then x else y) with (Some r) by now destruct (d =? 1)
  end.

(** [a] of shape (N, L, D) against [b] of shape (N, 1, D): [b] is repeated
    along the middle dimension. *)
Lemma binop_middle_spec (f : R -> R -> R) (a b : tensor R) (N L D : nat) :
  shape a = [N; L; D] -> shape b = [N; 1; D] ->
  exists c, tf.binop f a b = Some c /\ has_shape c [N; L; D] /\
    forall n l d, n < N -> l < L -> d < D ->
      item c ((n * L + l) * D + d)
      = f (item a ((n * L + l) * D + d)) (item b (n * D + d)).
Proof.
  intros Ha Hb. unfold tf.binop. rewrite Ha, Hb.
  cbn [rev app tf.broadcast_dims bind]. rewrite !Nat.eqb_refl. cbn [bind].
  broadcast_against_one L [L; N]. cbn [bind rev app].
  eexists. split; [reflexivity|]. split.
  - split; [reflexivity|]. cbn [data]. now rewrite length_tabulate.
  - intros n l d Hn Hl Hd.
    pose proof (offset3_lt n l d N L D Hn Hl Hd) as Hp.
    rewrite item_tabulate by (rewrite numel3; exact Hp).
    rewrite (broadcast_index_same [D; L; N])
      by (cbn [numel fold_right]; lia).
    f_equal. f_equal. cbn [tf.broadcast_index Nat.eqb].
    rewrite !select_same, offset_mod, !offset_div by assumption.
    rewrite Nat.mod_small by exact Hn. lia.
Qed.

(** [a] of shape (N, L, D) against [b] of shape (N, L, 1): [b] is repeated
    along the innermost dimension. *)
Lemma binop_inner_spec (f : R -> R -> R) (a b : tensor R) (N L D : nat) :
  shape a = [N; L; D] -> shape b = [N; L; 1] ->
  exists c, tf.binop f a b = Some c /\ has_shape c [N; L; D] /\
    forall n l d, n < N -> l < L -> d < D ->
      item c ((n * L + l) * D + d)
      = f (item a ((n * L + l) * D + d)) (item b (n * L + l)).
Proof.
  intros Ha Hb. unfold tf.binop. rewrite Ha, Hb.
  cbn [rev app tf.broadcast_dims bind]. rewrite !Nat.eqb_refl. cbn [bind].
  broadcast_against_one D [D; L; N]. cbn [bind rev app].
  eexists. split; [reflexivity|]. split.
  - split; [reflexivity|]. cbn [data]. now rewrite length_tabulate.
  - intros n l d Hn Hl Hd.
    pose proof (offset3_lt n l d N L D Hn Hl Hd) as Hp.
    rewrite item_tabulate by (rewrite numel3; exact Hp).
    rewrite (broadcast_index_same [D; L; N])
      by (cbn [numel fold_right]; lia).
    f_equal. f_equal.
    change (tf.broadcast_index [D; L; N] [1; L; N] ((n * L + l) * D + d))
      with (0 + 1 * tf.broadcast_index [L; N] [L; N] (((n * L + l) * D + d) / D)).
    rewrite offset_div by exact Hd.
    rewrite broadcast_index_same; [lia|].
    cbn [numel fold_right]. pose proof (offset_lt n l N L Hn Hl). lia.
Qed.

Lemma expand_dims_spec {A : Type} (t : tensor A) (axis : nat) :
  axis <= length (shape t) ->
  tf.expand_dims t axis
  = Some (mkTensor (firstn axis (shape t) ++ 1 :: skipn axis (shape t)) (data t)).
Proof.
  intros H. unfold tf.expand_dims.
  now destruct (Nat.leb_spec axis (length (shape t))); [|lia].
Qed.

Lemma softmax_spec (t : tensor R) (N L : nat) :
  shape t = [N; L] ->
  exists a, tf.softmax t = Some a /\ has_shape a [N; L] /\
    forall n l, n < N -> l < L ->
      item a (n * L + l) = tf.softmax_row t L n l.
Proof.
  intros Ht. unfold tf.softmax. rewrite Ht.
  eexists. split; [reflexivity|]. split.
  - split; [reflexivity|]. cbn [data]. rewrite length_tabulate, numel2. lia.
  - intros n l Hn Hl. rewrite item_tabulate by now apply offset_lt.
    now rewrite offset_div, offset_mod.
Qed.

(** [tf.reduce_sum(t, 1)] on a tensor of rank 3. *)
Lemma reduce_sum_axis1_spec (t : tensor R) (N L D : nat) :
  shape t = [N; L; D] ->
  exists c, tf.reduce_sum_axis t 1 = Some c /\ has_shape c [N; D] /\
    forall n d, n < N -> d < D ->
      item c (n * D + d) = rsum L (fun l => item t ((n * L + l) * D + d)).
Proof.
  intros Ht. unfold tf.reduce_sum_axis. rewrite Ht.
  cbn [nth_error bind firstn skipn app numel fold_right].
  rewrite !Nat.mul_1_r.
  eexists. split; [reflexivity|]. split.
  - split; [reflexivity|]. cbn [data]. rewrite length_tabulate, numel2. lia.
  - intros n d Hn Hd. rewrite item_tabulate by now apply offset_lt.
    now rewrite offset_div, offset_mod.
Qed.

(** ** Soft attention *)

Lemma item_mk (s : list nat) (t : tensor R) (p : nat) :
  item (mkTensor s (data t)) p = item t p.
Proof. reflexivity. Qed.

(** What [attention_forward] returns on inputs of the documented shapes
    with at least one position and one feature. *)
Lemma attention_forward_elts
    (X X_proj prev_h W_proj_h b_proj W_att : tensor R) (N L D H : nat) :
  shape X = [N; L; D] -> shape X_proj = [N; L; D] -> shape prev_h = [N; H] ->
  shape W_proj_h = [H; D] -> shape b_proj = [D] -> shape W_att = [D; 1] ->
  0 < L -> 0 < D ->
  exists context alpha,
    attention_forward X X_proj prev_h W_proj_h b_proj W_att
    = Some (context, alpha) /\
    has_shape context [N; D] /\ has_shape alpha [N; L] /\
    forall n, n < N ->
      let score l :=
        rsum D (fun d =>
          (relu (at3 X_proj n l d + matprod prev_h W_proj_h n d + item b_proj d)
           * at2 W_att d 0)%R) in
      (forall l, l < L ->
         at2 alpha n l = (exp (score l) / rsum L (fun l' => exp (score l')))%R) /\
      (forall d, d < D ->
         at2 context n d = rsum L (fun l => (at2 alpha n l * at3 X n l d)%R)).
Proof.
  intros HX HXp Hh HWp Hb HWa HL HD.
  destruct (matmul_spec prev_h W_proj_h N H D Hh HWp) as (hp & E1 & [S1 L1] & I1).
  assert (E2 : tf.expand_dims hp 1 = Some (mkTensor [N; 1; D] (data hp))).
  { rewrite expand_dims_spec by (rewrite S1; simpl; lia). now rewrite S1. }
  destruct (binop_middle_spec Rplus X_proj (mkTensor [N; 1; D] (data hp)) N L D
              HXp eq_refl) as (s1 & E3 & [S3 L3] & I3).
  destruct (binop_bias_spec Rplus s1 b_proj [N; L] D S3 Hb)
    as (s2 & E4 & [S4 L4] & I4).
  cbn [app] in S4, L4, I4. rewrite numel3 in L4, I4.
  set (hidden := tf.map_tensor relu s2).
  assert (E5 : tf.reshape hidden [(-1)%Z; Z.of_nat D]
               = Some (mkTensor [N * L; D] (data hidden))).
  { apply reshape2_spec; [|exact HD]. cbn [hidden tf.map_tensor shape].
    now rewrite S4, numel3. }
  destruct (matmul_spec (mkTensor [N * L; D] (data hidden)) W_att (N * L) D 1
              eq_refl HWa) as (out & E6 & [S6 L6] & I6).
  assert (E7 : tf.reshape out [(-1)%Z; Z.of_nat L]
               = Some (mkTensor [N; L] (data out))).
  { apply reshape2_spec; [|exact HL]. rewrite S6, numel2. lia. }
  destruct (softmax_spec (mkTensor [N; L] (data out)) N L eq_refl)
    as (alpha & E8 & [S8 L8] & I8).
  assert (E9 : tf.expand_dims alpha 2 = Some (mkTensor [N; L; 1] (data alpha))).
  { rewrite expand_dims_spec by (rewrite S8; simpl; lia). now rewrite S8. }
  destruct (binop_inner_spec Rmult X (mkTensor [N; L; 1] (data alpha)) N L D
              HX eq_refl) as (weighted & E10 & [S10 L10] & I10).
  destruct (reduce_sum_axis1_spec weighted N L D S10)
    as (context & E11 & Sc & Ic).
  exists context, alpha. split.
  { unfold attention_forward.
    rewrite (project_feature_shape_at X N L D HX).
    unfold tf.add, tf.mul. rewrite E1. cbn [bind]. rewrite E2. cbn [bind].
    rewrite E3. cbn [bind]. rewrite E4. cbn [bind]. fold hidden.
    rewrite E5. cbn [bind]. rewrite E6. cbn [bind]. rewrite E7. cbn [bind].
    rewrite E8. cbn [bind]. rewrite E9. cbn [bind]. rewrite E10. cbn [bind].
    now rewrite E11. }
  split; [exact Sc|]. split; [now split|].
  intros n Hn score.
  assert (Hscore : forall l, l < L -> item out (n * L + l) = score l).
  { intros l Hl. pose proof (offset_lt n l N L Hn Hl) as Hnl.
    replace (n * L + l) with ((n * L + l) * 1 + 0) at 1 by lia.
    rewrite I6 by lia. unfold score. apply rsum_ext. intros d Hd.
    pose proof (offset3_lt n l d N L D Hn Hl Hd) as Hp.
    rewrite item_mk. unfold hidden. rewrite item_map by (rewrite L4; exact Hp).
    rewrite I4 by exact Hp. rewrite offset_mod by exact Hd.
    rewrite I3 by assumption. rewrite item_mk, I1 by assumption.
    rewrite <- (matprod_item prev_h W_proj_h N H D) by assumption.
    rewrite <- (at3_item X_proj N L D) by exact HXp.
    now rewrite (at2_item W_att D 1) by exact HWa. }
  split.
  - intros l Hl. rewrite (at2_item alpha N L) by exact S8.
    rewrite I8 by assumption. unfold tf.softmax_row.
    rewrite item_mk, Hscore by exact Hl. f_equal.
    apply rsum_ext. intros l' Hl'. now rewrite item_mk, Hscore.
  - intros d Hd. destruct Sc as [Sc _].
    rewrite (at2_item context N D) by exact Sc. rewrite Ic by assumption.
    apply rsum_ext. intros l Hl. rewrite I10 by assumption.
    rewrite item_mk, <- (at3_item X N L D) by exact HX.
    rewrite <- (at2_item alpha N L) by exact S8. apply Rmult_comm.
Qed.

(** Without positions or without features the reshape of the scores
    cannot infer its leading dimension, and the call fails. *)
Lemma attention_forward_fails
    (X X_proj prev_h W_proj_h b_proj W_att : tensor R) (N L D H : nat) :
  shape X = [N; L; D] -> shape X_proj = [N; L; D] -> shape prev_h = [N; H] ->
  shape W_proj_h = [H; D] -> shape b_proj = [D] -> shape W_att = [D; 1] ->
  L = 0 \/ D = 0 ->
  attention_forward X X_proj prev_h W_proj_h b_proj W_att = None.
Proof.
  intros HX HXp Hh HWp Hb HWa HLD.
  destruct (matmul_spec prev_h W_proj_h N H D Hh HWp) as (hp & E1 & [S1 _] & _).
  assert (E2 : tf.expand_dims hp 1 = Some (mkTensor [N; 1; D] (data hp))).
  { rewrite expand_dims_spec by (rewrite S1; simpl; lia). now rewrite S1. }
  destruct (binop_middle_spec Rplus X_proj (mkTensor [N; 1; D] (data hp)) N L D
              HXp eq_refl) as (s1 & E3 & [S3 _] & _).
  destruct (binop_bias_spec Rplus s1 b_proj [N; L] D S3 Hb)
    as (s2 & E4 & [S4 _] & _).
  cbn [app] in S4.
  unfold attention_forward.
  rewrite (project_feature_shape_at X N L D HX).
  unfold tf.add. rewrite E1. cbn [bind]. rewrite E2. cbn [bind].
  rewrite E3. cbn [bind]. rewrite E4. cbn [bind].
  destruct (Nat.eq_dec D 0) as [->|HD]; [now rewrite reshape2_empty|].
  destruct HLD as [-> | ->]; [|contradiction].
  rewrite (reshape2_spec _ 0 D)
    by (cbn [tf.map_tensor shape]; rewrite ?S4, ?numel3; lia).
  cbn [bind].
  destruct (matmul_spec (mkTensor [0; D] (data (tf.map_tensor relu s2))) W_att
              0 D 1 eq_refl HWa) as (out & E6 & _ & _).
  rewrite E6. cbn [bind]. now rewrite reshape2_empty.
Qed.

(** C2 (amended). For inputs of the documented shapes with [L >= 1] and
    [D >= 1], [attention_forward] returns [(context, alpha)]: [alpha], of
    shape (N, L), is the row-wise softmax of the scores obtained by
    applying [W_att] to [relu (X_proj + prev_h·W_proj_h + b_proj)], the
    projection of the hidden state being the same at all positions, and
    [context], of shape (N, D), is [context[n] = sum_l alpha[n, l] * X[n, l]].
    When [L = 0] or [D = 0] the call fails. *)
Theorem attention_forward_spec
    (X X_proj prev_h W_proj_h b_proj W_att : tensor R) (N L D H : nat) :
  has_shape X [N; L; D] -> has_shape X_proj [N; L; D] ->
  has_shape prev_h [N; H] -> has_shape W_proj_h [H; D] ->
  has_shape b_proj [D] -> has_shape W_att [D; 1] ->
  (0 < L -> 0 < D ->
   exists context alpha,
     attention_forward X X_proj prev_h W_proj_h b_proj W_att
     = Some (context, alpha) /\
     has_shape context [N; D] /\ has_shape alpha [N; L] /\
     forall n, n < N ->
       let score l :=
         rsum D (fun d =>
           (relu (at3 X_proj n l d + matprod prev_h W_proj_h n d + item b_proj d)
            * at2 W_att d 0)%R) in
       (forall l, l < L ->
          at2 alpha n l = (exp (score l) / rsum L (fun l' => exp (score l')))%R) /\
       (forall d, d < D ->
          at2 context n d = rsum L (fun l => (at2 alpha n l * at3 X n l d)%R))) /\
  (L = 0 \/ D = 0 ->
   attention_forward X X_proj prev_h W_proj_h b_proj W_att = None).
Proof.
  intros [HX _] [HXp _] [Hh _] [HWp _] [Hb _] [HWa _]. split.
  - intros HL HD. now apply (attention_forward_elts _ _ _ _ _ _ N L D H).
  - intros HLD. now apply (attention_forward_fails _ _ _ _ _ _ N L D H).
Qed.

(** C2, as stated, fails on a feature map without spatial positions: the
    shapes are the documented ones and nothing is returned. *)
Lemma attention_forward_rejects_empty :
  has_shape Sample.empty_features [1; 0; 1] /\
  has_shape Sample.zero11 [1; 1] /\ has_shape Sample.zero1 [1] /\
  attention_forward Sample.empty_features Sample.empty_features
    Sample.zero11 Sample.zero11 Sample.zero1 Sample.zero11 = None.
Proof.
  split; [now split|]. split; [now split|]. split; [now split|].
  apply (attention_forward_fails _ _ _ _ _ _ 1 0 1 1); try reflexivity.
  now left.
Qed.

(** ** Softmax rows are distributions *)

Lemma fold_sum_pos (f : nat -> R) (l : list nat) :
  l <> [] -> (forall i, In i l -> (0 < f i)%R) ->
  (0 < fold_right Rplus 0%R (map f l))%R.
Proof.
  induction l as [|i l IH]; intros Hne Hpos; [contradiction|].
  simpl. assert (Hi : (0 < f i)%R) by (apply Hpos; now left).
  destruct l as [|j l]; [simpl; lra|].
  assert (0 < fold_right Rplus 0%R (map f (j :: l)))%R.
  { apply IH; [discriminate|]. intros k Hk. apply Hpos. now right. }
  lra.
Qed.

Lemma rsum_pos (n : nat) (f : nat -> R) :
  0 < n -> (forall i, i < n -> (0 < f i)%R) -> (0 < rsum n f)%R.
Proof.
  intros Hn Hf. unfold rsum. apply fold_sum_pos.
  - destruct n; [lia|]. discriminate.
  - intros i Hi. apply in_seq in Hi. apply Hf. lia.
Qed.

Lemma rsum_div (n : nat) (f : nat -> R) (c : R) :
  rsum n (fun i => (f i / c)%R) = (rsum n f / c)%R.
Proof.
  unfold rsum. induction (seq 0 n) as [|i l IH]; simpl.
  - unfold Rdiv. now rewrite Rmult_0_l.
  - rewrite IH. unfold Rdiv. now rewrite Rmult_plus_distr_r.
Qed.

Lemma softmax_distribution (L : nat) (score : nat -> R) :
  0 < L ->
  (forall l, (0 < exp (score l) / rsum L (fun l' => exp (score l')))%R) /\
  rsum L (fun l => (exp (score l) / rsum L (fun l' => exp (score l')))%R) = 1%R.
Proof.
  intros HL.
  assert (HS : (0 < rsum L (fun l' => exp (score l')))%R).
  { apply rsum_pos; [exact HL|]. intros i _. apply exp_pos. }
  split.
  - intros l. apply Rdiv_lt_0_compat; [apply exp_pos|exact HS].
  - rewrite (rsum_div L (fun l => exp (score l))). unfold Rdiv.
    apply Rinv_r. lra.
Qed.

(** ** Masked softmax loss *)

Lemma fold_sum_tabulate (l : list R) :
  fold_right Rplus 0%R l = rsum (length l) (fun p => nth p l 0%R).
Proof.
  unfold rsum. f_equal. apply (nth_ext _ _ 0%R 0%R).
  - now rewrite length_tabulate.
  - intros p Hp. now rewrite nth_tabulate.
Qed.

Lemma rsum_zero (n : nat) (f : nat -> R) :
  (forall i, i < n -> f i = 0%R) -> rsum n f = 0%R.
Proof.
  intros H. rewrite (rsum_ext n f (fun _ => 0%R) H). unfold rsum.
  induction (seq 0 n) as [|i l IH]; simpl; [reflexivity|]. rewrite IH. lra.
Qed.

(** A sum against a one-hot row picks one term. *)
Lemma fold_sum_one_hot (y : Z) (g : nat -> R) (l : list nat) :
  NoDup l ->
  fold_right Rplus 0%R
    (map (fun j => (IZR (if (y =? Z.of_nat j)%Z then 1 else 0) * g j)%R) l)
  = if in_dec Nat.eq_dec (Z.to_nat y) l
    then (if (0 <=? y)%Z then g (Z.to_nat y) else 0%R) else 0%R.
Proof.
  induction l as [|j l IH]; intros Hnd; [reflexivity|].
  inversion Hnd as [|? ? Hnotin Hnd']; subst.
  cbn [map fold_right]. rewrite (IH Hnd').
  destruct (Z.eqb_spec y (Z.of_nat j)) as [->|Hne].
  - rewrite Nat2Z.id.
    destruct (in_dec Nat.eq_dec j (j :: l)) as [_|C]; [|exfalso; apply C; now left].
    destruct (in_dec Nat.eq_dec j l) as [C|_]; [contradiction|].
    destruct (Z.leb_spec 0 (Z.of_nat j)); [lra|lia].
  - destruct (in_dec Nat.eq_dec (Z.to_nat y) (j :: l)) as [[Hj|Hin]|Hout];
      destruct (in_dec Nat.eq_dec (Z.to_nat y) l) as [Hin'|Hout'];
      try (exfalso; tauto); try (exfalso; apply Hout; now right);
      try lra.
    destruct (Z.leb_spec 0 y); [lia|lra].
Qed.

Lemma rsum_one_hot (y : Z) (g : nat -> R) (V : nat) :
  (0 <= y < Z.of_nat V)%Z ->
  rsum V (fun j => (IZR (if (y =? Z.of_nat j)%Z then 1 else 0) * g j)%R)
  = g (Z.to_nat y).
Proof.
  intros Hy. unfold rsum. rewrite fold_sum_one_hot by apply seq_NoDup.
  destruct (in_dec Nat.eq_dec (Z.to_nat y) (seq 0 V)) as [_|C].
  - now destruct (Z.leb_spec 0 y); [|lia].
  - exfalso. apply C. apply in_seq. lia.
Qed.

(** A sum of terms multiplied by a 0/1 mask is the sum over the rows the
    mask keeps. *)
Lemma fold_sum_mask (g : nat -> R) (m : nat -> bool) (l : list nat) :
  fold_right Rplus 0%R (map (fun i => (g i * (if m i then 1 else 0))%R) l)
  = fold_right Rplus 0%R (map g (filter m l)).
Proof.
  induction l as [|i l IH]; [reflexivity|].
  cbn [map fold_right filter]. rewrite IH.
  destruct (m i); cbn [map fold_right]; lra.
Qed.

Lemma item_cast_bool (mask : tensor bool) (i : nat) :
  item (tf.cast_bool mask) i = if item_bool mask i then 1%R else 0%R.
Proof.
  unfold item, item_bool, tf.cast_bool, tf.map_tensor. cbn [data].
  exact (map_nth (fun b : bool => if b then 1%R else 0%R) (data mask) false i).
Qed.

Lemma item_one_hot (y : tensor Z) (N V i j : nat) :
  shape y = [N] -> i < N -> j < V ->
  item (tf.cast_int (tf.one_hot y V)) (i * V + j)
  = IZR (if (item_int y i =? Z.of_nat j)%Z then 1 else 0).
Proof.
  intros Hy Hi Hj. unfold item, tf.cast_int, tf.one_hot, tf.map_tensor.
  cbn [data]. rewrite Hy.
  rewrite (map_nth IZR _ 0%Z (i * V + j)). f_equal.
  rewrite nth_tabulate
    by (cbn [numel fold_right]; pose proof (offset_lt i j N V Hi Hj); lia).
  now rewrite offset_div, offset_mod.
Qed.

Lemma map_to_nat_of_nat (dims : list nat) :
  map Z.to_nat (map Z.of_nat dims) = dims.
Proof.
  induction dims as [|d dims IH]; simpl; [reflexivity|].
  now rewrite IH, Nat2Z.id.
Qed.

(** A reshape to fully known dimensions of the right size. *)
Lemma reshape_exact_spec {A : Type} (t : tensor A) (dims : list nat) :
  numel dims = numel (shape t) ->
  tf.reshape t (map Z.of_nat dims) = Some (mkTensor dims (data t)).
Proof.
  intros H. unfold tf.reshape.
  rewrite reshape_dims_nonneg, reshape_dims_count, reshape_dims_known.
  now rewrite H, Nat.eqb_refl, map_to_nat_of_nat.
Qed.

Lemma softmax_loss_shape_at (X : tensor R) (N V : nat) :
  shape X = [N; V] ->
  forall (B : Type) (k : nat -> option B),
    (V <- tf.shape_at X 1 ;; k V) = k V.
Proof. intros HX B k. unfold tf.shape_at. now rewrite HX. Qed.

(** The scalar [softmax_loss] returns when there is at least one class:
    the sum over the rows of the cross entropy of the row times its mask
    entry cast to 1 or 0. *)
Lemma softmax_loss_elts (X : tensor R) (y : tensor Z) (mask : tensor bool)
    (N V : nat) :
  shape X = [N; V] -> shape y = [N] -> shape mask = [N] -> 0 < V ->
  softmax_loss X y mask
  = Some (mkTensor []
      [rsum N (fun i =>
         (cross_entropy_row X y V i
          * (if item_bool mask i then 1 else 0))%R)]).
Proof.
  intros HX Hy Hm HV. unfold softmax_loss.
  rewrite (softmax_loss_shape_at X N V HX).
  unfold tf.softmax_cross_entropy_with_logits, tf.flatten_outer_dims.
  cbn [tf.cast_int tf.map_tensor tf.one_hot shape]. rewrite HX, Hy.
  cbn [app rev removelast].
  rewrite (reshape2_spec X N V) by (rewrite ?HX, ?numel2; lia).
  cbn [bind].
  rewrite (reshape2_spec (tf.cast_int (tf.one_hot y V)) N V)
    by (cbn [tf.cast_int tf.map_tensor tf.one_hot shape];
        rewrite ?Hy; cbn [app]; rewrite ?numel2; lia).
  cbn [bind shape]. rewrite !Nat.eqb_refl. cbn [andb].
  rewrite (reshape_exact_spec _ [N]) by reflexivity.
  cbn [bind data].
  match goal with
  | |- context [tf.mul ?a ?b] =>
      destruct (binop_same_spec Rmult a b [N] eq_refl Hm)
        as (loss & E & [Sl Ll] & Il)
  end.
  unfold tf.mul. rewrite E. cbn [bind]. unfold tf.reduce_sum. do 3 f_equal.
  rewrite fold_sum_tabulate, Ll. cbn [numel fold_right]. rewrite Nat.mul_1_r.
  apply rsum_ext. intros i Hi. fold (item loss i).
  rewrite Il by (cbn [numel fold_right]; lia).
  rewrite item_cast_bool, item_tabulate by exact Hi.
  f_equal. unfold cross_entropy_row. f_equal.
  apply rsum_ext. intros j Hj. f_equal.
  rewrite item_mk. now apply (item_one_hot y N V).
Qed.

(** Without classes the scores cannot be flattened, and the call fails. *)
Lemma softmax_loss_no_classes (X : tensor R) (y : tensor Z)
    (mask : tensor bool) (N : nat) :
  shape X = [N; 0] -> softmax_loss X y mask = None.
Proof.
  intros HX. unfold softmax_loss.
  rewrite (softmax_loss_shape_at X N 0 HX).
  unfold tf.softmax_cross_entropy_with_logits, tf.flatten_outer_dims.
  rewrite HX. cbn [rev app]. now rewrite reshape2_empty.
Qed.

(** C3 (amended). For scores [X] of shape (N, V) with [V >= 1], labels
    [y] of shape (N,) with every [y[i]] in [0, V), and a boolean [mask] of
    shape (N,), [softmax_loss] returns the scalar
    [sum_i m[i] * (- log (softmax (X[i]))[y[i]])], where [m[i]] is
    [mask[i]] cast to 1 or 0: a row the mask drops enters the sum as its
    cross entropy times 0.  With [V = 0] the call fails. *)
Theorem softmax_loss_spec (X : tensor R) (y : tensor Z) (mask : tensor bool)
    (N V : nat) :
  has_shape X [N; V] -> has_shape y [N] -> has_shape mask [N] ->
  (forall i, i < N -> (0 <= item_int y i < Z.of_nat V)%Z) ->
  (0 < V ->
   exists loss,
     softmax_loss X y mask = Some loss /\ has_shape loss [] /\
     item loss 0
     = rsum N (fun i =>
         (- ln (tf.softmax_row X V i (Z.to_nat (item_int y i)))
          * (if item_bool mask i then 1 else 0))%R)) /\
  (V = 0 -> softmax_loss X y mask = None).
Proof.
  intros [HX _] [Hy _] [Hm _] Hrange. split.
  - intros HV. rewrite (softmax_loss_elts X y mask N V HX Hy Hm HV).
    eexists. split; [reflexivity|]. split; [now split|].
    unfold item. cbn [data nth].
    apply rsum_ext. intros i Hi. f_equal. unfold cross_entropy_row. f_equal.
    now apply rsum_one_hot, Hrange.
  - intros ->. now apply (softmax_loss_no_classes X y mask N).
Qed.

(** C3, as stated, fails on scores without classes: the shapes are the
    documented ones, no label is out of range, and no loss is returned. *)
Lemma softmax_loss_rejects_no_classes :
  has_shape Sample.scores00 [0; 0] /\ has_shape Sample.labels0 [0] /\
  has_shape Sample.mask0 [0] /\
  (forall i, i < 0 -> (0 <= item_int Sample.labels0 i < Z.of_nat 0)%Z) /\
  softmax_loss Sample.scores00 Sample.labels0 Sample.mask0 = None.
Proof.
  split; [now split|]. split; [now split|]. split; [now split|].
  split; [intros i Hi; lia|].
  now apply (softmax_loss_no_classes _ _ _ 0).
Qed.



(** ** Word embedding *)

Lemma embedding_lookup_spec (W : tensor R) (X : tensor Z) (V M : nat)
    (s : list nat) :
  shape W = [V; M] -> has_shape X s ->
  Forall (fun i => (0 <= i < Z.of_nat V)%Z) (data X) ->
  exists out, word_embedding_forward X W = Some out /\
    has_shape out (s ++ [M]) /\
    forall p m, p < numel s -> m < M ->
      item out (p * M + m) = item W (Z.to_nat (item_int X p) * M + m).
Proof.
  intros HW [HX LX] Hrange.
  unfold word_embedding_forward, tf.embedding_lookup. rewrite HW, HX.
  assert (Hall : forallb (fun i => (0 <=? i)%Z && (i <? Z.of_nat V)%Z) (data X)
                 = true).
  { apply forallb_forall. intros i Hi.
    rewrite Forall_forall in Hrange. specialize (Hrange i Hi).
    apply andb_true_iff. split; [apply Z.leb_le|apply Z.ltb_lt]; lia. }
  rewrite Hall. cbn [numel fold_right]. rewrite Nat.mul_1_r.
  eexists. split; [reflexivity|]. split.
  - split; [reflexivity|]. cbn [data].
    rewrite length_tabulate, numel_app. cbn [numel fold_right]. lia.
  - intros p m Hp Hm. rewrite item_tabulate by now apply offset_lt.
    now rewrite offset_div, offset_mod.
Qed.

(** C6. For an embedding matrix [W_embed] of shape (V, M) and an index
    tensor [X] with all entries in [0, V), [word_embedding_forward]
    returns the looked-up rows: [out[n, t] = W_embed[X[n, t]]], of shape
    (N, T, M), when [X] has shape (N, T), and [out[n] = W_embed[X[n]]], of
    shape (N, M), when [X] has shape (N,). *)
Theorem word_embedding_forward_spec (X : tensor Z) (W_embed : tensor R)
    (V M : nat) :
  has_shape W_embed [V; M] ->
  Forall (fun i => (0 <= i < Z.of_nat V)%Z) (data X) ->
  (forall N T, has_shape X [N; T] ->
     exists out, word_embedding_forward X W_embed = Some out /\
       has_shape out [N; T; M] /\
       forall n t m, n < N -> t < T -> m < M ->
         at3 out n t m = at2 W_embed (Z.to_nat (item_int X (n * T + t))) m) /\
  (forall N, has_shape X [N] ->
     exists out, word_embedding_forward X W_embed = Some out /\
       has_shape out [N; M] /\
       forall n m, n < N -> m < M ->
         at2 out n m = at2 W_embed (Z.to_nat (item_int X n)) m).
Proof.
  intros [HW _] Hrange. split.
  - intros N T HX.
    destruct (embedding_lookup_spec W_embed X V M [N; T] HW HX Hrange)
      as (out & E & [So Lo] & Io).
    exists out. split; [exact E|]. split; [now split|].
    intros n t m Hn Ht Hm.
    rewrite (at3_item out N T M) by exact So.
    rewrite (at2_item W_embed V M) by exact HW.
    apply Io; [|exact Hm]. rewrite numel2. now apply offset_lt.
  - intros N HX.
    destruct (embedding_lookup_spec W_embed X V M [N] HW HX Hrange)
      as (out & E & [So Lo] & Io).
    exists out. split; [exact E|]. split; [now split|].
    intros n m Hn Hm.
    rewrite (at2_item out N M) by exact So.
    rewrite (at2_item W_embed V M) by exact HW.
    apply Io; [|exact Hm]. cbn [numel fold_right]. lia.
Qed.

(** ** Dropout and the random generator *)

Lemma binop_scalar_l_spec (f : R -> R -> R) (c : R) (b : tensor R) :
  exists t, tf.binop f (tf.scalar c) b = Some t /\ has_shape t (shape b) /\
    forall p, p < numel (shape b) -> item t p = f c (item b p).
Proof.
  unfold tf.binop. cbn [tf.scalar shape rev tf.broadcast_dims bind].
  rewrite rev_involutive.
  eexists. split; [reflexivity|]. split.
  - split; [reflexivity|]. cbn [data]. now rewrite length_tabulate.
  - intros p Hp. rewrite item_tabulate by exact Hp.
    rewrite broadcast_index_nil_r, broadcast_index_same
      by now rewrite numel_rev.
    reflexivity.
Qed.

Lemma binop_scalar_r_spec (f : R -> R -> R) (a : tensor R) (c : R) :
  exists t, tf.binop f a (tf.scalar c) = Some t /\ has_shape t (shape a) /\
    forall p, p < numel (shape a) -> item t p = f (item a p) c.
Proof.
  unfold tf.binop. cbn [tf.scalar shape rev]. rewrite broadcast_dims_nil_r.
  cbn [bind]. rewrite rev_involutive.
  eexists. split; [reflexivity|]. split.
  - split; [reflexivity|]. cbn [data]. now rewrite length_tabulate.
  - intros p Hp. rewrite item_tabulate by exact Hp.
    rewrite broadcast_index_nil_r, broadcast_index_same
      by now rewrite numel_rev.
    reflexivity.
Qed.

Lemma dropout_spec (x : tensor R) (keep_prob : R) (g : tf.rng) :
  exists t,
    tf.dropout x keep_prob g = (Some t, fun k => g (numel (shape x) + k)) /\
    has_shape t (shape x) /\
    forall p, p < numel (shape x) ->
      item t p
      = (item x p * / keep_prob * IZR (Zfloor (keep_prob + g p)))%R.
Proof.
  unfold tf.dropout, tf.random_uniform.
  set (u := mkTensor (shape x) (map g (seq 0 (numel (shape x))))).
  destruct (binop_scalar_l_spec Rplus keep_prob u) as (r & E1 & [S1 L1] & I1).
  destruct (binop_scalar_r_spec Rmult x (/ keep_prob)) as (sc & E2 & [S2 L2] & I2).
  assert (Sf : shape (tf.floor r) = shape x) by exact S1.
  destruct (binop_same_spec Rmult sc (tf.floor r) (shape x) S2 Sf)
    as (t & E3 & St & It).
  exists t. unfold tf.add, tf.mul. rewrite E1. cbn [bind]. rewrite E2.
  cbn [bind]. rewrite E3. split; [reflexivity|]. split; [exact St|].
  intros p Hp. rewrite It, I2 by exact Hp. f_equal.
  unfold tf.floor. unfold item at 1. cbn [tf.map_tensor data].
  change 0%R with (IZR 0) at 1.
  replace 0%Z with (Zfloor 0) at 1 by (apply Zfloor_eq; simpl; lra).
  rewrite (map_nth (fun x => IZR (Zfloor x)) (data r) 0%R p).
  fold (item r p). rewrite I1 by exact Hp. unfold u.
  now rewrite item_tabulate.
Qed.

(** [init_lstm] with dropout, on inputs for which the first affine layer
    is defined. *)
Lemma init_lstm_dropout_elts (X W1 b1 W2 b2 : tensor R) (N D H K : nat)
    (g : tf.rng) :
  shape X = [N; D] -> shape W1 = [D; H] -> shape b1 = [H] ->
  shape W2 = [H; K] -> shape b2 = [K] ->
  exists out,
    init_lstm X W1 b1 W2 b2 true g = (Some out, fun k => g (numel [N; H] + k)) /\
    has_shape out [N; K] /\
    forall n j, n < N -> j < K ->
      at2 out n j
      = tanh (rsum H (fun k =>
                (relu (matprod X W1 n k + item b1 k) * / (1 / 2)
                 * IZR (Zfloor (1 / 2 + g (n * H + k)%nat))
                 * at2 W2 k j)%R)
              + item b2 j)%R.
Proof.
  intros HX HW1 Hb1 HW2 Hb2.
  destruct (affine_forward_elts X W1 b1 N D H HX HW1 Hb1) as (a & Ea & Sa & Ia).
  destruct (affine_activation_elts relu a N H Sa) as [[Sh Lh] Ih].
  destruct (dropout_spec (tf.map_tensor relu a) (1 / 2) g)
    as (h' & Ed & [Sd Ld] & Id).
  rewrite Sh in Ed, Sd, Ld, Id.
  destruct (affine_forward_elts h' W2 b2 N H K Sd HW2 Hb2) as (a2 & Ea2 & Sa2 & Ia2).
  destruct (affine_activation_elts tanh a2 N K Sa2) as [St It].
  exists (tf.map_tensor tanh a2). split.
  { unfold init_lstm, affine_relu_forward. rewrite Ea. cbn [bind].
    rewrite Ed. cbn [bind]. unfold affine_tanh_forward. now rewrite Ea2. }
  split; [exact St|].
  intros n j Hn Hj. rewrite It, Ia2 by assumption. f_equal. f_equal.
  rewrite (matprod_item h' W2 N H K) by assumption.
  apply rsum_ext. intros k Hk.
  rewrite <- (at2_item W2 H K) by exact HW2. f_equal.
  rewrite Id by (rewrite numel2; now apply offset_lt).
  rewrite <- (at2_item (tf.map_tensor relu a) N H) by exact Sh.
  now rewrite Ih, Ia by assumption.
Qed.







(** ** Worked examples *)

Ltac shapes := repeat split; try reflexivity.

Lemma affine_heads_spec_witness :
  has_shape Sample.row12 [1; 2] /\ has_shape Sample.col21 [2; 1] /\
  has_shape Sample.five1 [1] /\
  exists out,
    affine_forward Sample.row12 Sample.col21 Sample.five1 = Some out /\
    at2 out 0 0 = 16%R.
Proof.
  shapes.
  destruct (affine_heads_spec Sample.row12 Sample.col21 Sample.five1 1 2 1)
    as (out & E & _ & I & _); [shapes ..|].
  exists out. split; [exact E|]. rewrite I by lia.
  unfold matprod, rsum, at2, item. simpl. lra.
Defined.

Lemma lstm_step_forward_spec_witness :
  has_shape Sample.zero11 [1; 1] /\ has_shape Sample.one11 [1; 1] /\
  has_shape Sample.zero14 [1; 4 * 1] /\ has_shape Sample.zero4 [4 * 1] /\
  exists h c,
    lstm_step_forward Sample.zero11 Sample.zero11 Sample.one11 Sample.zero11
      Sample.zero14 Sample.zero14 Sample.zero14 Sample.zero4 = Some (h, c) /\
    at2 c 0 0 = (1 / 2)%R /\ at2 h 0 0 = (1 / 2 * tanh (1 / 2))%R.
Proof.
  shapes.
  destruct (lstm_step_forward_spec Sample.zero11 Sample.zero11 Sample.one11
              Sample.zero11 Sample.zero14 Sample.zero14 Sample.zero14
              Sample.zero4 1 1 1 1)
    as (h & c & E & _ & _ & I); [shapes ..|].
  exists h, c. split; [exact E|].
  destruct (I 0 0) as [Ic Ih]; [lia | lia |].
  assert (Ha : forall q, q < 4 ->
            (matprod Sample.zero11 Sample.zero14 0 q
             + matprod Sample.zero11 Sample.zero14 0 q
             + matprod Sample.zero11 Sample.zero14 0 q
             + item Sample.zero4 q)%R = 0%R).
  { intros q Hq. rewrite !matprod_zero11.
    do 4 (destruct q as [|q]; [unfold item; simpl; lra|]). lia. }
  assert (Hs : sigmoid 0 = (1 / 2)%R).
  { unfold sigmoid. rewrite Ropp_0, exp_0. lra. }
  assert (Hc : at2 c 0 0 = (1 / 2)%R).
  { rewrite Ic, !Ha by lia. rewrite Hs, tanh_0. unfold at2, item. simpl. lra. }
  split; [exact Hc|]. rewrite Ih, Hc, Ha by lia. now rewrite Hs.
Defined.

Lemma project_feature_spec_witness :
  has_shape Sample.one111 [1; 1; 1] /\ has_shape Sample.one11 [1; 1] /\
  exists out,
    project_feature Sample.one111 Sample.one11 = Some out /\
    at3 out 0 0 0 = 1%R.
Proof.
  shapes.
  destruct (project_feature_spec Sample.one111 Sample.one11 1 1 1)
    as [Hret _]; [shapes ..|].
  destruct Hret as (out & E & _ & I); [lia | lia |].
  exists out. split; [exact E|]. rewrite I by lia.
  unfold rsum, at3, at2, item. simpl. lra.
Defined.

Lemma attention_forward_spec_witness :
  has_shape Sample.one111 [1; 1; 1] /\ has_shape Sample.zero11 [1; 1] /\
  has_shape Sample.zero1 [1] /\ has_shape Sample.one11 [1; 1] /\
  exists context alpha,
    attention_forward Sample.one111 Sample.one111 Sample.zero11 Sample.zero11
      Sample.zero1 Sample.one11 = Some (context, alpha) /\
    at2 alpha 0 0 = 1%R /\ at2 context 0 0 = 1%R.
Proof.
  shapes.
  destruct (attention_forward_spec Sample.one111 Sample.one111 Sample.zero11
              Sample.zero11 Sample.zero1 Sample.one11 1 1 1 1)
    as [Hret _]; [shapes ..|].
  destruct Hret as (context & alpha & E & _ & _ & I); [lia | lia |].
  exists context, alpha. split; [exact E|].
  destruct (I 0) as [Ia Ic]; [lia|].
  assert (Halpha : at2 alpha 0 0 = 1%R).
  { rewrite Ia by lia. unfold rsum at 2. cbn [seq map fold_right].
    match goal with
    | |- (exp ?s / _ = _)%R => pose proof (exp_pos s); field; lra
    end. }
  split; [exact Halpha|]. rewrite Ic by lia. unfold rsum. cbn [seq map fold_right].
  rewrite Halpha. unfold at3, item. simpl. lra.
Defined.

Lemma softmax_loss_spec_witness :
  has_shape Sample.scores22 [2; 2] /\ has_shape Sample.labels2 [2] /\
  has_shape Sample.first_only [2] /\
  exists loss,
    softmax_loss Sample.scores22 Sample.labels2 Sample.first_only = Some loss /\
    item loss 0
    = (- ln (1 / 2) * 1
       + (- ln (tf.softmax_row Sample.scores22 2 1 1) * 0 + 0))%R.
Proof.
  shapes.
  destruct (softmax_loss_spec Sample.scores22 Sample.labels2 Sample.first_only
              2 2) as [Hret _]; [shapes .. | |].
  { intros i Hi. destruct i as [|[|i]]; unfold item_int; simpl; lia. }
  destruct Hret as (loss & E & _ & I); [lia|].
  exists loss. split; [exact E|]. rewrite I.
  unfold rsum at 1. cbn [seq map fold_right].
  unfold item_bool, item_int.
  cbn [Sample.first_only Sample.labels2 data nth Z.to_nat Pos.to_nat
       Pos.iter_op Nat.add].
  f_equal. f_equal. f_equal. f_equal.
  unfold tf.softmax_row, rsum, item. simpl. rewrite exp_0. lra.
Defined.


Lemma word_embedding_forward_spec_witness :
  has_shape Sample.table21 [2; 1] /\
  has_shape Sample.caption12 [1; 2] /\ has_shape Sample.word2 [2] /\
  (exists out,
     word_embedding_forward Sample.caption12 Sample.table21 = Some out /\
     has_shape out [1; 2; 1] /\ at3 out 0 0 0 = 8%R /\ at3 out 0 1 0 = 7%R) /\
  (exists out,
     word_embedding_forward Sample.word2 Sample.table21 = Some out /\
     has_shape out [2; 1] /\ at2 out 0 0 = 8%R /\ at2 out 1 0 = 7%R).
Proof.
  shapes.
  - destruct (word_embedding_forward_spec Sample.caption12 Sample.table21 2 1)
      as [Hseq _]; [shapes | repeat constructor; simpl; lia |].
    destruct (Hseq 1 2) as (out & E & So & I); [shapes|].
    exists out. split; [exact E|]. split; [exact So|].
    split; rewrite I by lia; reflexivity.
  - destruct (word_embedding_forward_spec Sample.word2 Sample.table21 2 1)
      as [_ Hstep]; [shapes | repeat constructor; simpl; lia |].
    destruct (Hstep 2) as (out & E & So & I); [shapes|].
    exists out. split; [exact E|]. split; [exact So|].
    split; rewrite I by lia; reflexivity.
Defined.

(** * Further properties of the layers *)

(** ** Ranges of the activations *)

Lemma sigmoid_range (x : R) : (0 < sigmoid x < 1)%R.
Proof.
  unfold sigmoid. pose proof (exp_pos (- x)) as He.
  split.
  - apply Rdiv_lt_0_compat; lra.
  - apply (Rmult_lt_reg_r (1 + exp (- x))); [lra|].
    replace (1 / (1 + exp (- x)) * (1 + exp (- x)))%R with 1%R by (field; lra).
    lra.
Qed.

Lemma tanh_gt_m1 (x : R) : (- 1 < tanh x)%R.
Proof.
  unfold tanh, sinh, cosh.
  pose proof (exp_pos x) as Hp. pose proof (exp_pos (- x)) as Hn.
  apply (Rmult_lt_reg_r ((exp x + exp (- x)) / 2)); [lra|].
  replace ((exp x - exp (- x)) / 2 / ((exp x + exp (- x)) / 2)
           * ((exp x + exp (- x)) / 2))%R
    with ((exp x - exp (- x)) / 2)%R by (field; lra).
  lra.
Qed.

Lemma tanh_range (x : R) : (- 1 < tanh x < 1)%R.
Proof. split; [apply tanh_gt_m1|apply tanh_lt_1]. Qed.

Lemma relu_nonneg (x : R) : (0 <= relu x)%R.
Proof. unfold relu, Rmax. destruct (Rle_dec x 0); lra. Qed.

Lemma relu_cases (x : R) :
  ((x <= 0)%R /\ relu x = 0%R) \/ ((0 < x)%R /\ relu x = x).
Proof. unfold relu, Rmax. destruct (Rle_dec x 0); [left|right]; lra. Qed.

(** X1. The three activation heads keep their outputs in range: every
    entry of [affine_sigmoid_forward] lies between 0 and 1, every entry of
    [affine_relu_forward] is non-negative and is zero exactly where the
    affine value is not positive, and every entry of
    [affine_tanh_forward] lies between -1 and 1 (bounds included). *)
Theorem affine_heads_range (X W b : tensor R) (N H V : nat) :
  has_shape X [N; H] -> has_shape W [H; V] -> has_shape b [V] ->
  exists s r t,
    affine_sigmoid_forward X W b = Some s /\
    affine_relu_forward X W b = Some r /\
    affine_tanh_forward X W b = Some t /\
    forall n v, n < N -> v < V ->
      (0 <= at2 s n v <= 1)%R /\
      (0 <= at2 r n v)%R /\
      (at2 r n v = 0%R <-> (matprod X W n v + item b v <= 0)%R) /\
      (- 1 <= at2 t n v <= 1)%R.
Proof.
  intros [HX _] [HW _] [Hb _].
  destruct (affine_forward_elts X W b N H V HX HW Hb) as (out & E & So & Io).
  exists (tf.map_tensor sigmoid out), (tf.map_tensor relu out),
         (tf.map_tensor tanh out).
  unfold affine_sigmoid_forward, affine_relu_forward, affine_tanh_forward.
  rewrite E. cbn [bind]. repeat (split; [reflexivity|]).
  intros n v Hn Hv. rewrite !(at2_map _ out N V) by assumption.
  rewrite Io by assumption.
  pose proof (sigmoid_range (matprod X W n v + item b v)) as Hs.
  pose proof (tanh_range (matprod X W n v + item b v)) as Ht.
  split; [lra|]. split; [apply relu_nonneg|]. split; [|lra].
  destruct (relu_cases (matprod X W n v + item b v)) as [[Hle ->]|[Hgt ->]];
    split; intros; lra.
Qed.

Lemma affine_heads_range_witness :
  has_shape Sample.row12 [1; 2] /\ has_shape Sample.col21 [2; 1] /\
  has_shape Sample.five1 [1] /\
  exists s,
    affine_sigmoid_forward Sample.row12 Sample.col21 Sample.five1 = Some s /\
    (0 <= at2 s 0 0 <= 1)%R.
Proof.
  split; [split; reflexivity|]. split; [split; reflexivity|].
  split; [split; reflexivity|].
  destruct (affine_heads_range Sample.row12 Sample.col21 Sample.five1 1 2 1)
    as (s & r & t & Es & _ & _ & I); [split; reflexivity ..|].
  exists s. split; [exact Es|]. destruct (I 0 0) as [Hs _]; [lia | lia |].
  exact Hs.
Defined.

(** ** Shape errors of the affine layer *)

(** X2. On a rank-2 input and weight matrix and a rank-1 bias,
    [affine_forward] fails exactly when the inner dimensions differ or
    the bias cannot be broadcast against the columns.  A bias of length 1
    is accepted for any number of columns, and when the product has a
    single column a bias of any length is accepted and widens the
    result. *)
Theorem affine_forward_shape_check (X W b : tensor R) (N H H' V V' : nat) :
  shape X = [N; H] -> shape W = [H'; V] -> shape b = [V'] ->
  (H = H' /\ (V = V' \/ V = 1 \/ V' = 1) ->
   exists out, affine_forward X W b = Some out /\
     shape out = [N; if V =? 1 then V' else V]) /\
  (H <> H' \/ (V <> V' /\ V <> 1 /\ V' <> 1) ->
   affine_forward X W b = None).
Proof.
  intros HX HW Hb. unfold affine_forward, tf.matmul. rewrite HX, HW.
  split.
  - intros [<- HV]. rewrite Nat.eqb_refl. cbn [bind].
    unfold tf.add, tf.binop. cbn [shape]. rewrite Hb.
    cbn [rev app tf.broadcast_dims bind].
    destruct (Nat.eqb_spec V V') as [<-|Hne].
    + cbn [bind rev app]. eexists. split; [reflexivity|]. cbn [shape].
      now destruct (V =? 1).
    + destruct (Nat.eqb_spec V 1) as [->|Hne1].
      * cbn [bind rev app]. eexists. split; reflexivity.
      * destruct (Nat.eqb_spec V' 1) as [->|Hne2]; [|lia].
        cbn [bind rev app]. eexists. split; reflexivity.
  - intros [Hne | (Hne & Hne1 & Hne2)].
    + destruct (Nat.eqb_spec H H') as [E|_]; [contradiction|reflexivity].
    + destruct (H =? H'); [|reflexivity]. cbn [bind].
      unfold tf.add, tf.binop. cbn [shape]. rewrite Hb.
      cbn [rev app tf.broadcast_dims bind].
      destruct (Nat.eqb_spec V V') as [E|_]; [contradiction|].
      destruct (Nat.eqb_spec V 1) as [E|_]; [contradiction|].
      destruct (Nat.eqb_spec V' 1) as [E|_]; [contradiction|reflexivity].
Qed.

Lemma affine_forward_shape_check_witness :
  shape Sample.row12 = [1; 2] /\ shape Sample.col21 = [2; 1] /\
  shape Sample.zero4 = [4] /\
  (exists out,
     affine_forward Sample.row12 Sample.col21 Sample.zero4 = Some out /\
     shape out = [1; 4]) /\
  affine_forward Sample.col21 Sample.col21 Sample.zero4 = None.
Proof.
  split; [reflexivity|]. split; [reflexivity|]. split; [reflexivity|]. split.
  - destruct (affine_forward_shape_check Sample.row12 Sample.col21 Sample.zero4
                1 2 2 1 4) as [Hok _]; [reflexivity ..|].
    apply Hok. split; [reflexivity|]. right. now left.
  - destruct (affine_forward_shape_check Sample.col21 Sample.col21 Sample.zero4
                2 1 2 1 4) as [_ Hfail]; [reflexivity ..|].
    apply Hfail. left. lia.
Defined.

(** ** Recurrent steps: what comes out *)

(** X3. On inputs of the documented shapes [rnn_step_forward] returns a
    tensor of shape (N, H) whose entries are
    [h = tanh (X·Wx + prev_h·Wh + context·Wz) + b]: the bias is added to
    the result of the activation, for every input and not only where the
    difference shows. *)
Theorem rnn_step_forward_value
    (X prev_h context Wx Wh Wz b : tensor R) (N M H D : nat) :
  has_shape X [N; M] -> has_shape prev_h [N; H] -> has_shape context [N; D] ->
  has_shape Wx [M; H] -> has_shape Wh [H; H] -> has_shape Wz [D; H] ->
  has_shape b [H] ->
  exists h,
    rnn_step_forward X prev_h context Wx Wh Wz b = Some h /\
    has_shape h [N; H] /\
    forall n j, n < N -> j < H ->
      at2 h n j
      = (tanh (matprod X Wx n j + matprod prev_h Wh n j + matprod context Wz n j)
         + item b j)%R.
Proof.
  intros [HX _] [Hh _] [Hc _] [HWx _] [HWh _] [HWz _] [Hb _].
  now apply (rnn_step_forward_elts X prev_h context Wx Wh Wz b N M H D).
Qed.

Lemma rnn_step_forward_value_witness :
  has_shape Sample.zero11 [1; 1] /\ has_shape Sample.five1 [1] /\
  exists h,
    rnn_step_forward Sample.zero11 Sample.zero11 Sample.zero11
      Sample.zero11 Sample.zero11 Sample.zero11 Sample.five1 = Some h /\
    at2 h 0 0 = 5%R.
Proof.
  split; [split; reflexivity|]. split; [split; reflexivity|].
  destruct (rnn_step_forward_value Sample.zero11 Sample.zero11
              Sample.zero11 Sample.zero11 Sample.zero11 Sample.zero11
              Sample.five1 1 1 1 1) as (h & E & _ & I); [split; reflexivity ..|].
  exists h. split; [exact E|]. rewrite I by lia. rewrite !matprod_zero11.
  replace (0 + 0 + 0)%R with 0%R by lra. rewrite tanh_0.
  unfold item. simpl. lra.
Defined.

(** The entries of [(h, c)], as in the statement of the cell update. *)
Lemma lstm_step_forward_elts
    (X prev_h prev_c context Wx Wh Wz b : tensor R) (N M H D : nat) :
  shape X = [N; M] -> shape prev_h = [N; H] -> shape prev_c = [N; H] ->
  shape context = [N; D] ->
  shape Wx = [M; 4 * H] -> shape Wh = [H; 4 * H] ->
  shape Wz = [D; 4 * H] -> shape b = [4 * H] ->
  exists h c,
    lstm_step_forward X prev_h prev_c context Wx Wh Wz b = Some (h, c) /\
    has_shape h [N; H] /\ has_shape c [N; H] /\
    forall n j, n < N -> j < H ->
      exists i f o g,
        (0 < i < 1)%R /\ (0 < f < 1)%R /\ (0 < o < 1)%R /\ (- 1 < g < 1)%R /\
        at2 c n j = (f * at2 prev_c n j + i * g)%R /\
        at2 h n j = (o * tanh (at2 c n j))%R.
Proof.
  intros HX Hh Hpc Hc HWx HWh HWz Hb.
  destruct (recurrent_input_spec X prev_h context Wx Wh Wz N M H D (4 * H)
              HX Hh Hc HWx HWh HWz) as (s & [Ss Ls] & Is & Ek).
  destruct (binop_bias_spec Rplus s b [N] (4 * H) Ss Hb)
    as (a & Ea & [Sa La] & Ia).
  destruct (split4_spec a N H Sa)
    as (a_i & a_f & a_o & a_g & Esp & Si & Sf & So & Sg & Isp).
  pose proof (has_shape_map sigmoid a_i [N; H] Si) as [Si' _].
  pose proof (has_shape_map sigmoid a_f [N; H] Sf) as [Sf' _].
  pose proof (has_shape_map sigmoid a_o [N; H] So) as [So' _].
  pose proof (has_shape_map tanh a_g [N; H] Sg) as [Sg' _].
  destruct (binop_same_spec Rmult (tf.map_tensor sigmoid a_f) prev_c [N; H] Sf' Hpc)
    as (fc & Efc & [Sfc Lfc] & Ifc).
  destruct (binop_same_spec Rmult (tf.map_tensor sigmoid a_i)
              (tf.map_tensor tanh a_g) [N; H] Si' Sg')
    as (ig & Eig & [Sig Lig] & Iig).
  destruct (binop_same_spec Rplus fc ig [N; H] Sfc Sig)
    as (c & Ec & [Sc Lc] & Ic).
  pose proof (has_shape_map tanh c [N; H] (conj Sc Lc)) as [Stc _].
  destruct (binop_same_spec Rmult (tf.map_tensor sigmoid a_o)
              (tf.map_tensor tanh c) [N; H] So' Stc)
    as (h & Eh & [Sh Lh] & Ih).
  exists h, c. split.
  { unfold lstm_step_forward. rewrite Ek. unfold tf.add, tf.mul in *.
    rewrite Ea. simpl. rewrite Esp. simpl. rewrite Efc. simpl.
    rewrite Eig. simpl. rewrite Ec. simpl. now rewrite Eh. }
  split; [now split|]. split; [now split|].
  intros n j Hn Hj.
  exists (sigmoid (at2 a_i n j)), (sigmoid (at2 a_f n j)),
         (sigmoid (at2 a_o n j)), (tanh (at2 a_g n j)).
  repeat (split; [apply sigmoid_range || apply tanh_range|]).
  assert (Hc' : at2 c n j
                = (sigmoid (at2 a_f n j) * at2 prev_c n j
                   + sigmoid (at2 a_i n j) * tanh (at2 a_g n j))%R).
  { rewrite (at2_binop_same Rplus fc ig c N H n j Sfc Sig Sc Ic Hn Hj).
    rewrite (at2_binop_same Rmult _ _ fc N H n j Sf' Hpc Sfc Ifc Hn Hj).
    rewrite (at2_binop_same Rmult _ _ ig N H n j Si' Sg' Sig Iig Hn Hj).
    now rewrite !(at2_map _ _ N H) by assumption. }
  split; [exact Hc'|].
  rewrite (at2_binop_same Rmult _ _ h N H n j So' Stc Sh Ih Hn Hj).
  now rewrite !(at2_map _ _ N H) by (assumption || now split).
Qed.

(** X4. The hidden state [lstm_step_forward] returns is bounded: every
    entry of [h] lies between -1 and 1 (bounds included), whatever the
    inputs and the previous cell state. *)
Theorem lstm_step_forward_bounds
    (X prev_h prev_c context Wx Wh Wz b : tensor R) (N M H D : nat) :
  has_shape X [N; M] -> has_shape prev_h [N; H] -> has_shape prev_c [N; H] ->
  has_shape context [N; D] ->
  has_shape Wx [M; 4 * H] -> has_shape Wh [H; 4 * H] ->
  has_shape Wz [D; 4 * H] -> has_shape b [4 * H] ->
  exists h c,
    lstm_step_forward X prev_h prev_c context Wx Wh Wz b = Some (h, c) /\
    forall n j, n < N -> j < H -> (- 1 <= at2 h n j <= 1)%R.
Proof.
  intros [HX _] [Hh _] [Hpc _] [Hc _] [HWx _] [HWh _] [HWz _] [Hb _].
  destruct (lstm_step_forward_elts X prev_h prev_c context Wx Wh Wz b N M H D
              HX Hh Hpc Hc HWx HWh HWz Hb) as (h & c & E & _ & _ & I).
  exists h, c. split; [exact E|].
  intros n j Hn Hj.
  destruct (I n j Hn Hj) as (i & f & o & g & Hi & Hf & Ho & Hg & Ec & Eh).
  rewrite Eh. pose proof (tanh_range (at2 c n j)). nra.
Qed.

Lemma lstm_step_forward_bounds_witness :
  has_shape Sample.zero11 [1; 1] /\ has_shape Sample.one11 [1; 1] /\
  has_shape Sample.zero14 [1; 4 * 1] /\ has_shape Sample.zero4 [4 * 1] /\
  exists h c,
    lstm_step_forward Sample.zero11 Sample.zero11 Sample.one11 Sample.zero11
      Sample.zero14 Sample.zero14 Sample.zero14 Sample.zero4 = Some (h, c) /\
    (- 1 <= at2 h 0 0 <= 1)%R.
Proof.
  split; [split; reflexivity|]. split; [split; reflexivity|].
  split; [split; reflexivity|]. split; [split; reflexivity|].
  destruct (lstm_step_forward_bounds Sample.zero11 Sample.zero11 Sample.one11
              Sample.zero11 Sample.zero14 Sample.zero14 Sample.zero14
              Sample.zero4 1 1 1 1) as (h & c & E & I); [split; reflexivity ..|].
  exists h, c. split; [exact E|]. apply I; lia.
Defined.

(** X5. [lstm_step_forward] needs gate weights whose number of columns
    is a multiple of 4: with weights of [K] columns and a bias of length
    [K] the three projections and the bias add up, and the call then
    fails in [tf.split] when 4 does not divide [K]. *)
Theorem lstm_step_forward_needs_four_gates
    (X prev_h prev_c context Wx Wh Wz b : tensor R) (N M H D K : nat) :
  shape X = [N; M] -> shape prev_h = [N; H] -> shape context = [N; D] ->
  shape Wx = [M; K] -> shape Wh = [H; K] -> shape Wz = [D; K] ->
  shape b = [K] -> K mod 4 <> 0 ->
  lstm_step_forward X prev_h prev_c context Wx Wh Wz b = None.
Proof.
  intros HX Hh Hc HWx HWh HWz Hb HK.
  destruct (recurrent_input_spec X prev_h context Wx Wh Wz N M H D K
              HX Hh Hc HWx HWh HWz) as (s & [Ss _] & _ & Ek).
  destruct (binop_bias_spec Rplus s b [N] K Ss Hb) as (a & Ea & [Sa _] & _).
  unfold lstm_step_forward. rewrite Ek. unfold tf.add. rewrite Ea.
  cbn [bind]. unfold tf.split. rewrite Sa. cbn [app nth_error bind].
  change (4 =? 0) with false. cbv iota.
  now destruct (Nat.eqb_spec (K mod 4) 0) as [E|_]; [contradiction|].
Qed.

Lemma lstm_step_forward_needs_four_gates_witness :
  1 mod 4 <> 0 /\
  lstm_step_forward Sample.zero11 Sample.zero11 Sample.zero11 Sample.zero11
    Sample.zero11 Sample.zero11 Sample.zero11 Sample.zero1 = None.
Proof.
  split; [discriminate|].
  apply (lstm_step_forward_needs_four_gates _ _ _ _ _ _ _ _ 1 1 1 1 1);
    try reflexivity.
  discriminate.
Defined.

(** ** Initial state of the LSTM *)

(** X6. Without dropout, on [X] of shape (N, D), [W1] of shape (D, H),
    [b1] of shape (H,), [W2] of shape (H, K) and [b2] of shape (K,),
    [init_lstm] returns the tensor of shape (N, K) with
    [out = tanh (relu (X·W1 + b1)·W2 + b2)]; its entries lie between -1
    and 1 (bounds included). *)
Theorem init_lstm_no_dropout (X W1 b1 W2 b2 : tensor R) (N D H K : nat)
    (g : tf.rng) :
  has_shape X [N; D] -> has_shape W1 [D; H] -> has_shape b1 [H] ->
  has_shape W2 [H; K] -> has_shape b2 [K] ->
  exists out,
    init_lstm X W1 b1 W2 b2 false g = (Some out, g) /\
    has_shape out [N; K] /\
    forall n j, n < N -> j < K ->
      at2 out n j
      = tanh (rsum H (fun k =>
                (relu (matprod X W1 n k + item b1 k) * at2 W2 k j)%R)
              + item b2 j)%R /\
      (- 1 <= at2 out n j <= 1)%R.
Proof.
  intros [HX _] [HW1 _] [Hb1 _] [HW2 _] [Hb2 _].
  destruct (affine_forward_elts X W1 b1 N D H HX HW1 Hb1) as (a & Ea & Sa & Ia).
  destruct (affine_activation_elts relu a N H Sa) as [[Sh Lh] Ih].
  destruct (affine_forward_elts (tf.map_tensor relu a) W2 b2 N H K Sh HW2 Hb2)
    as (a2 & Ea2 & Sa2 & Ia2).
  destruct (affine_activation_elts tanh a2 N K Sa2) as [St It].
  exists (tf.map_tensor tanh a2). split.
  { unfold init_lstm, affine_relu_forward. rewrite Ea. cbn [bind].
    unfold affine_tanh_forward. now rewrite Ea2. }
  split; [exact St|].
  intros n j Hn Hj. rewrite It by assumption.
  split; [|pose proof (tanh_range (at2 a2 n j)); lra].
  rewrite Ia2 by assumption. f_equal. f_equal.
  unfold matprod at 1. rewrite Sh. cbn [nth].
  apply rsum_ext. intros k Hk. now rewrite Ih, Ia by assumption.
Qed.

Lemma init_lstm_no_dropout_witness :
  has_shape Sample.one11 [1; 1] /\ has_shape Sample.zero1 [1] /\
  exists out,
    init_lstm Sample.one11 Sample.one11 Sample.zero1 Sample.one11 Sample.zero1
      false Sample.zero_then_half = (Some out, Sample.zero_then_half) /\
    at2 out 0 0 = tanh 1.
Proof.
  split; [split; reflexivity|]. split; [split; reflexivity|].
  destruct (init_lstm_no_dropout Sample.one11 Sample.one11 Sample.zero1
              Sample.one11 Sample.zero1 1 1 1 1 Sample.zero_then_half)
    as (out & E & _ & I); [split; reflexivity ..|].
  exists out. split; [exact E|]. destruct (I 0 0) as [Hv _]; [lia | lia |].
  rewrite Hv. f_equal. unfold rsum, matprod, rsum, at2, item, relu. simpl.
  rewrite Rmax_left; lra.
Defined.

Lemma Zfloor_dropout (u : R) :
  (0 <= u < 1)%R ->
  IZR (Zfloor (1 / 2 + u)) = if Rlt_dec u (1 / 2) then 0%R else 1%R.
Proof.
  intros Hu. destruct (Rlt_dec u (1 / 2)) as [Hlt|Hge].
  - rewrite (Zfloor_eq 0); [reflexivity|]. simpl. lra.
  - rewrite (Zfloor_eq 1); [reflexivity|]. simpl. lra.
Qed.

(** X7. With dropout and generator samples in [0, 1), [init_lstm] zeroes
    the hidden unit [(n, k)] when its sample, the one at position
    [n * H + k], is below 1/2 and doubles it otherwise, before the second
    affine layer:
    [out = tanh (dropped·W2 + b2)] with
    [dropped[n, k] = 0] or [2 * relu (X·W1 + b1)[n, k]]. *)
Theorem init_lstm_dropout_units (X W1 b1 W2 b2 : tensor R) (N D H K : nat)
    (g : tf.rng) :
  has_shape X [N; D] -> has_shape W1 [D; H] -> has_shape b1 [H] ->
  has_shape W2 [H; K] -> has_shape b2 [K] ->
  (forall k, (0 <= g k < 1)%R) ->
  exists out g',
    init_lstm X W1 b1 W2 b2 true g = (Some out, g') /\
    has_shape out [N; K] /\
    (forall k, g' k = g (N * H + k)) /\
    forall n j, n < N -> j < K ->
      at2 out n j
      = tanh (rsum H (fun k =>
                ((if Rlt_dec (g (n * H + k)%nat) (1 / 2) then 0
                  else 2 * relu (matprod X W1 n k + item b1 k))
                 * at2 W2 k j)%R)
              + item b2 j)%R.
Proof.
  intros [HX _] [HW1 _] [Hb1 _] [HW2 _] [Hb2 _] Hg.
  destruct (init_lstm_dropout_elts X W1 b1 W2 b2 N D H K g HX HW1 Hb1 HW2 Hb2)
    as (out & E & So & Io).
  exists out, (fun k => g (numel [N; H] + k)).
  split; [exact E|]. split; [exact So|]. split.
  - intros k. now rewrite numel2.
  - intros n j Hn Hj. rewrite Io by assumption. f_equal. f_equal.
    apply rsum_ext. intros k Hk. rewrite Zfloor_dropout by apply Hg.
    destruct (Rlt_dec (g (n * H + k)) (1 / 2)); field.
Qed.

Lemma init_lstm_dropout_units_witness :
  has_shape Sample.one11 [1; 1] /\ has_shape Sample.zero1 [1] /\
  (forall k, (0 <= Sample.zero_then_half k < 1)%R) /\
  exists out g',
    init_lstm Sample.one11 Sample.one11 Sample.zero1 Sample.one11 Sample.zero1
      true Sample.zero_then_half = (Some out, g') /\
    at2 out 0 0 = 0%R /\ g' 0 = (1 / 2)%R.
Proof.
  assert (Hg : forall k, (0 <= Sample.zero_then_half k < 1)%R).
  { intros k. unfold Sample.zero_then_half. destruct (k =? 0); lra. }
  split; [split; reflexivity|]. split; [split; reflexivity|].
  split; [exact Hg|].
  destruct (init_lstm_dropout_units Sample.one11 Sample.one11 Sample.zero1
              Sample.one11 Sample.zero1 1 1 1 1 Sample.zero_then_half)
    as (out & g' & E & _ & Hg' & I); [split; reflexivity .. | exact Hg |].
  exists out, g'. split; [exact E|]. split.
  - rewrite I by lia. rewrite <- tanh_0 at 1. f_equal.
    unfold rsum. cbn [seq map fold_right].
    change (Sample.zero_then_half (0 * 1 + 0)) with 0%R.
    destruct (Rlt_dec 0 (1 / 2)) as [_|C]; [|exfalso; lra].
    unfold item. simpl. lra.
  - rewrite Hg'. reflexivity.
Defined.

(** ** The loss: sign, labels out of range, shifted scores *)




Lemma rsum_scal_l (n : nat) (c : R) (f : nat -> R) :
  rsum n (fun i => (c * f i)%R) = (c * rsum n f)%R.
Proof.
  unfold rsum. induction (seq 0 n) as [|i l IH]; simpl; [lra|].
  rewrite IH. lra.
Qed.





Lemma rsum_one_hot_any (y : Z) (g : nat -> R) (V : nat) :
  rsum V (fun j => (IZR (if (y =? Z.of_nat j)%Z then 1 else 0) * g j)%R)
  = if (0 <=? y)%Z && (y <? Z.of_nat V)%Z then g (Z.to_nat y) else 0%R.
Proof.
  unfold rsum. rewrite fold_sum_one_hot by apply seq_NoDup.
  destruct (Z.leb_spec 0 y) as [Hge|Hlt]; cbn [andb].
  - destruct (Z.ltb_spec y (Z.of_nat V)) as [HltV|HgeV];
      destruct (in_dec Nat.eq_dec (Z.to_nat y) (seq 0 V)) as [Hin|Hout];
      try reflexivity.
    + exfalso. apply Hout. apply in_seq. lia.
    + exfalso. apply in_seq in Hin. lia.
  - now destruct (in_dec Nat.eq_dec (Z.to_nat y) (seq 0 V)).
Qed.

(** X9. A label outside [0, V) gives its row a cross entropy of zero
    (its one-hot row has no 1): with at least one class, [softmax_loss]
    returns the sum over the rows of [m[i] * e[i]], where [m[i]] is the
    mask entry cast to 1 or 0 and [e[i]] is
    [- log (softmax (X[i]))[y[i]]] when [0 <= y[i] < V] and 0 otherwise. *)
Theorem softmax_loss_skips_labels_out_of_range
    (X : tensor R) (y : tensor Z) (mask : tensor bool) (N V : nat) :
  has_shape X [N; V] -> has_shape y [N] -> has_shape mask [N] -> 0 < V ->
  exists loss,
    softmax_loss X y mask = Some loss /\
    item loss 0
    = rsum N (fun i =>
        ((if (0 <=? item_int y i)%Z && (item_int y i <? Z.of_nat V)%Z
          then - ln (tf.softmax_row X V i (Z.to_nat (item_int y i)))
          else 0)
         * (if item_bool mask i then 1 else 0))%R).
Proof.
  intros [HX _] [Hy _] [Hm _] HV.
  rewrite (softmax_loss_elts X y mask N V HX Hy Hm HV).
  eexists. split; [reflexivity|]. unfold item. cbn [data nth].
  apply rsum_ext. intros i Hi. f_equal.
  unfold cross_entropy_row. rewrite rsum_one_hot_any.
  destruct ((0 <=? item_int y i)%Z && (item_int y i <? Z.of_nat V)%Z); lra.
Qed.

Lemma softmax_loss_skips_labels_out_of_range_witness :
  has_shape Sample.scores22 [2; 2] /\ has_shape Sample.padded2 [2] /\
  has_shape Sample.keep_all [2] /\
  exists loss,
    softmax_loss Sample.scores22 Sample.padded2 Sample.keep_all = Some loss /\
    item loss 0 = (- ln (1 / 2))%R.
Proof.
  split; [split; reflexivity|]. split; [split; reflexivity|].
  split; [split; reflexivity|].
  destruct (softmax_loss_skips_labels_out_of_range Sample.scores22
              Sample.padded2 Sample.keep_all 2 2) as (loss & E & I);
    [split; reflexivity .. | lia |].
  exists loss. split; [exact E|]. rewrite I.
  unfold rsum at 1. unfold item_bool, item_int.
  cbn [seq map fold_right Sample.keep_all Sample.padded2
    data nth andb Z.leb Z.ltb Z.compare Z.of_nat Pos.of_succ_nat Pos.succ
    Pos.compare Pos.compare_cont Z.to_nat].
  unfold tf.softmax_row, rsum, item. simpl. rewrite exp_0.
  replace (1 / (1 + (1 + 0)))%R with (1 / 2)%R by lra. lra.
Defined.

Lemma softmax_row_shift (t t' : tensor R) (l i j : nat) (c : R) :
  j < l ->
  (forall k, k < l -> item t' (i * l + k) = (item t (i * l + k) + c)%R) ->
  tf.softmax_row t' l i j = tf.softmax_row t l i j.
Proof.
  intros Hj Hshift. unfold tf.softmax_row.
  rewrite (rsum_ext l (fun k => exp (item t' (i * l + k)))
             (fun k => (exp c * exp (item t (i * l + k)))%R)).
  - rewrite rsum_scal_l, Hshift, exp_plus by exact Hj.
    assert (HS : (0 < rsum l (fun k => exp (item t (i * l + k))))%R).
    { apply rsum_pos; [lia|]. intros k _. apply exp_pos. }
    pose proof (exp_pos c). field. lra.
  - intros k Hk. rewrite Hshift, exp_plus by exact Hk. lra.
Qed.

(** X10. With at least one class, the loss does not change when a
    constant, possibly a different one for each row, is added to all the
    scores of a row. *)
Theorem softmax_loss_shift_invariant
    (X X' : tensor R) (y : tensor Z) (mask : tensor bool) (N V : nat)
    (c : nat -> R) :
  has_shape X [N; V] -> has_shape X' [N; V] ->
  has_shape y [N] -> has_shape mask [N] -> 0 < V ->
  (forall i j, i < N -> j < V -> at2 X' i j = (at2 X i j + c i)%R) ->
  exists loss,
    softmax_loss X y mask = Some loss /\ softmax_loss X' y mask = Some loss.
Proof.
  intros [HX _] [HX' _] [Hy _] [Hm _] HV Hshift.
  rewrite (softmax_loss_elts X y mask N V HX Hy Hm HV).
  rewrite (softmax_loss_elts X' y mask N V HX' Hy Hm HV).
  eexists. split; [reflexivity|]. do 3 f_equal.
  apply rsum_ext. intros i Hi. f_equal. unfold cross_entropy_row. f_equal.
  apply rsum_ext. intros j Hj. f_equal. f_equal.
  apply (softmax_row_shift X X' V i j (c i) Hj).
  intros k Hk.
  rewrite <- (at2_item X' N V), <- (at2_item X N V) by assumption.
  now apply Hshift.
Qed.

Lemma softmax_loss_shift_invariant_witness :
  has_shape Sample.scores22 [2; 2] /\ has_shape Sample.scores22_shifted [2; 2] /\
  has_shape Sample.labels2 [2] /\ has_shape Sample.keep_all [2] /\
  exists loss,
    softmax_loss Sample.scores22 Sample.labels2 Sample.keep_all = Some loss /\
    softmax_loss Sample.scores22_shifted Sample.labels2 Sample.keep_all
    = Some loss.
Proof.
  split; [split; reflexivity|]. split; [split; reflexivity|].
  split; [split; reflexivity|]. split; [split; reflexivity|].
  apply (softmax_loss_shift_invariant Sample.scores22 Sample.scores22_shifted
           Sample.labels2 Sample.keep_all 2 2
           (fun i => if i =? 0 then 3%R else (- 1)%R));
    try (split; reflexivity); [lia|].
  intros i j Hi Hj.
  destruct i as [|[|i]]; [| |lia];
    (destruct j as [|[|j]]; [| |lia]); unfold at2, item; simpl; lra.
Defined.

(** ** Word embedding: whole captions and single steps *)

(** X11. Looking up a whole caption batch and reading time step [t]
    gives what looking up that step alone gives: for [X] of shape (N, T)
    and [Xt] of shape (N,) with [Xt[n] = X[n, t]], both calls succeed and
    the word vectors agree, [out[n, t, m] = out_t[n, m]]. *)
Theorem word_embedding_forward_step (X Xt : tensor Z) (W_embed : tensor R)
    (V M N T t : nat) :
  has_shape W_embed [V; M] -> has_shape X [N; T] -> has_shape Xt [N] ->
  Forall (fun i => (0 <= i < Z.of_nat V)%Z) (data X) ->
  t < T ->
  (forall n, n < N -> item_int Xt n = item_int X (n * T + t)) ->
  exists out out_t,
    word_embedding_forward X W_embed = Some out /\
    word_embedding_forward Xt W_embed = Some out_t /\
    forall n m, n < N -> m < M -> at3 out n t m = at2 out_t n m.
Proof.
  intros [HW _] HX HXt Hrange Ht Hstep.
  assert (Hrange_t : Forall (fun i => (0 <= i < Z.of_nat V)%Z) (data Xt)).
  { apply Forall_forall. intros z Hz.
    destruct (In_nth _ _ 0%Z Hz) as (n & Hn & <-).
    destruct HXt as [_ LXt]. rewrite LXt in Hn. cbn [numel fold_right] in Hn.
    assert (Hn' : n < N) by lia.
    fold (item_int Xt n). rewrite (Hstep n Hn').
    rewrite Forall_forall in Hrange. apply Hrange. apply nth_In.
    destruct HX as [_ LX]. rewrite LX, numel2. now apply offset_lt. }
  destruct (embedding_lookup_spec W_embed X V M [N; T] HW HX Hrange)
    as (out & E & [So _] & Io).
  destruct (embedding_lookup_spec W_embed Xt V M [N] HW HXt Hrange_t)
    as (out_t & Et & [Sot _] & Iot).
  exists out, out_t. split; [exact E|]. split; [exact Et|].
  intros n m Hn Hm.
  rewrite (at3_item out N T M) by exact So.
  rewrite (at2_item out_t N M) by exact Sot.
  rewrite Io by (rewrite ?numel2; try apply offset_lt; assumption).
  rewrite Iot by (cbn [numel fold_right]; lia).
  now rewrite Hstep.
Qed.

Lemma word_embedding_forward_step_witness :
  has_shape Sample.table21 [2; 1] /\ has_shape Sample.caption12 [1; 2] /\
  has_shape Sample.step1 [1] /\
  exists out out_t,
    word_embedding_forward Sample.caption12 Sample.table21 = Some out /\
    word_embedding_forward Sample.step1 Sample.table21 = Some out_t /\
    at3 out 0 1 0 = at2 out_t 0 0.
Proof.
  split; [split; reflexivity|]. split; [split; reflexivity|].
  split; [split; reflexivity|].
  destruct (word_embedding_forward_step Sample.caption12 Sample.step1
              Sample.table21 2 1 1 2 1) as (out & out_t & E & Et & I);
    try (split; reflexivity).
  - repeat constructor; simpl; lia.
  - lia.
  - intros n Hn. destruct n; [reflexivity|lia].
  - exists out, out_t. split; [exact E|]. split; [exact Et|]. apply I; lia.
Defined.

(** ** Attention: where the context can lie *)

(** What is known of any result of [attention_forward]. *)
Lemma attention_forward_returned
    (X X_proj prev_h W_proj_h b_proj W_att : tensor R) (N L D H : nat)
    (context alpha : tensor R) :
  shape X = [N; L; D] -> shape X_proj = [N; L; D] ->
  shape prev_h = [N; H] -> shape W_proj_h = [H; D] ->
  shape b_proj = [D] -> shape W_att = [D; 1] ->
  attention_forward X X_proj prev_h W_proj_h b_proj W_att
  = Some (context, alpha) ->
  0 < L /\ 0 < D /\
  forall n, n < N ->
    (forall l, l < L -> (0 < at2 alpha n l)%R) /\
    rsum L (fun l => at2 alpha n l) = 1%R /\
    (forall d, d < D ->
       at2 context n d = rsum L (fun l => (at2 alpha n l * at3 X n l d)%R)).
Proof.
  intros HX HXp Hh HWp Hb HWa Hret.
  destruct (Nat.eq_dec L 0) as [HL0|HL].
  { rewrite (attention_forward_fails _ _ _ _ _ _ N L D H) in Hret
      by (assumption || now left). discriminate. }
  destruct (Nat.eq_dec D 0) as [HD0|HD].
  { rewrite (attention_forward_fails _ _ _ _ _ _ N L D H) in Hret
      by (assumption || now right). discriminate. }
  split; [lia|]. split; [lia|].
  destruct (attention_forward_elts X X_proj prev_h W_proj_h b_proj W_att
              N L D H HX HXp Hh HWp Hb HWa)
    as (context' & alpha' & E & Sc & Sa & I); try lia.
  rewrite E in Hret. injection Hret as <- <-.
  intros n Hn. destruct (I n Hn) as [Ia Ic].
  match type of Ia with
  | forall l, _ -> _ = (exp (@?s l) / _)%R =>
      destruct (softmax_distribution L s) as [Hpos Hsum]; [lia|]
  end.
  split; [|split].
  - intros l Hl. rewrite Ia by exact Hl. apply Hpos.
  - rewrite <- Hsum. apply rsum_ext. intros l Hl. now apply Ia.
  - exact Ic.
Qed.

(** X13. With a single position there is nothing to choose: when
    [L = 1], every returned attention weight is 1 and the context vector
    is the feature vector of that position. *)
Theorem attention_forward_single_position
    (X X_proj prev_h W_proj_h b_proj W_att : tensor R) (N D H : nat)
    (context alpha : tensor R) :
  has_shape X [N; 1; D] -> has_shape X_proj [N; 1; D] ->
  has_shape prev_h [N; H] -> has_shape W_proj_h [H; D] ->
  has_shape b_proj [D] -> has_shape W_att [D; 1] ->
  attention_forward X X_proj prev_h W_proj_h b_proj W_att
  = Some (context, alpha) ->
  forall n, n < N ->
    at2 alpha n 0 = 1%R /\
    forall d, d < D -> at2 context n d = at3 X n 0 d.
Proof.
  intros [HX _] [HXp _] [Hh _] [HWp _] [Hb _] [HWa _] Hret n Hn.
  destruct (attention_forward_returned X X_proj prev_h W_proj_h b_proj W_att
              N 1 D H context alpha HX HXp Hh HWp Hb HWa Hret)
    as (_ & _ & I).
  destruct (I n Hn) as (_ & Hsum & Hc).
  unfold rsum in Hsum. cbn [seq map fold_right] in Hsum.
  assert (Ha : at2 alpha n 0 = 1%R) by lra.
  split; [exact Ha|]. intros d Hd. rewrite Hc by exact Hd.
  unfold rsum. cbn [seq map fold_right]. rewrite Ha. lra.
Qed.

Lemma attention_forward_single_position_witness :
  exists context alpha,
    attention_forward Sample.one111 Sample.one111 Sample.zero11 Sample.zero11
      Sample.zero1 Sample.one11 = Some (context, alpha) /\
    at2 alpha 0 0 = 1%R /\ at2 context 0 0 = 1%R.
Proof.
  assert (E : exists p,
             attention_forward Sample.one111 Sample.one111 Sample.zero11
               Sample.zero11 Sample.zero1 Sample.one11 = Some p)
    by (eexists; reflexivity).
  destruct E as [[context alpha] E].
  exists context, alpha. split; [exact E|].
  destruct (attention_forward_single_position Sample.one111 Sample.one111
              Sample.zero11 Sample.zero11 Sample.zero1 Sample.one11
              1 1 1 context alpha) with (n := 0) as [Ha Hc];
    [split; reflexivity .. | exact E | lia |].
  split; [exact Ha|]. rewrite Hc by lia. unfold at3, item. simpl. reflexivity.
Defined.

(** ** Feature projection: identity weights and inputs of low rank *)

Lemma filter_none (f : nat -> bool) (l : list nat) :
  (forall k, In k l -> f k = false) -> filter f l = [].
Proof.
  induction l as [|i l IH]; intros H; [reflexivity|]. cbn [filter].
  rewrite (H i) by now left. apply IH. intros k Hk. apply H. now right.
Qed.

Lemma filter_eqb_seq (d n : nat) :
  d < n -> filter (fun k => k =? d) (seq 0 n) = [d].
Proof.
  induction n as [|n IH]; intros Hd; [lia|].
  rewrite seq_S, filter_app. cbn [filter Nat.add].
  destruct (Nat.eq_dec d n) as [->|Hne].
  - rewrite Nat.eqb_refl.
    rewrite filter_none; [reflexivity|].
    intros k Hk. apply in_seq in Hk. apply Nat.eqb_neq. lia.
  - rewrite IH by lia.
    now destruct (Nat.eqb_spec n d) as [E|_]; [lia|].
Qed.

Lemma rsum_pick (n d : nat) (f : nat -> R) :
  d < n ->
  rsum n (fun k => (f k * (if k =? d then 1 else 0))%R) = f d.
Proof.
  intros Hd. unfold rsum.
  rewrite (fold_sum_mask f (fun k => k =? d)), filter_eqb_seq by exact Hd.
  simpl. lra.
Qed.

(** X14. Projecting with the identity matrix changes nothing: for [X] of
    shape (N, L, D) with [L >= 1] and [D >= 1] and [W] the (D, D) identity
    matrix, [project_feature] returns [X] itself, so flattening the
    positions and restoring them keeps every entry in place. *)
Theorem project_feature_identity (X W : tensor R) (N L D : nat) :
  has_shape X [N; L; D] -> has_shape W [D; D] -> 0 < L -> 0 < D ->
  (forall k d, k < D -> d < D ->
     at2 W k d = if k =? d then 1%R else 0%R) ->
  project_feature X W = Some X.
Proof.
  intros HX [HW _] HL HD Heye.
  destruct (project_feature_elts X W N L D HX HW HL HD)
    as (out & E & [So Lo] & Io).
  rewrite E. f_equal. destruct HX as [SX LX].
  destruct out as [so dout], X as [sx dx]. cbn [shape data] in *. subst so sx.
  f_equal. apply (nth_ext _ _ 0%R 0%R); [congruence|].
  intros p Hp. rewrite Lo, numel3 in Hp.
  destruct (offset_split p (N * L) D Hp) as (Hq & Hd & Ep).
  destruct (offset_split (p / D) N L Hq) as (Hn & Hl & Eq).
  set (n := p / D / L) in *. set (l := (p / D) mod L) in *.
  set (d := p mod D) in *.
  assert (Ep' : p = (n * L + l) * D + d) by lia.
  specialize (Io n l d Hn Hl Hd).
  rewrite (at3_item _ N L D) in Io by reflexivity.
  unfold item in Io at 1. cbn [data] in Io. rewrite <- Ep' in Io. rewrite Io.
  rewrite (rsum_ext D _ (fun k => (at3 (mkTensor [N; L; D] dx) n l k
                                    * (if k =? d then 1 else 0))%R))
    by (intros k Hk; now rewrite Heye).
  rewrite rsum_pick by exact Hd.
  rewrite (at3_item _ N L D) by reflexivity. unfold item. cbn [data].
  now rewrite <- Ep'.
Qed.

Lemma project_feature_identity_witness :
  has_shape Sample.features122 [1; 2; 2] /\ has_shape Sample.eye22 [2; 2] /\
  project_feature Sample.features122 Sample.eye22 = Some Sample.features122.
Proof.
  split; [split; reflexivity|]. split; [split; reflexivity|].
  apply (project_feature_identity Sample.features122 Sample.eye22 1 2 2);
    try (split; reflexivity); try lia.
  intros k d Hk Hd.
  destruct k as [|[|k]]; [| |lia]; (destruct d as [|[|d]]; [| |lia]);
    reflexivity.
Defined.

(** X15. The feature map must have rank 3: on [X] of rank 2 or less,
    reading its second or third dimension fails, and so do
    [project_feature] and [attention_forward], whatever the other
    arguments. *)
Theorem feature_map_rank_required
    (X W X_proj prev_h W_proj_h b_proj W_att : tensor R) :
  length (shape X) <= 2 ->
  project_feature X W = None /\
  attention_forward X X_proj prev_h W_proj_h b_proj W_att = None.
Proof.
  intros Hrank. unfold project_feature, attention_forward, tf.shape_at.
  destruct (shape X) as [|n [|l [|d r]]]; cbn [length] in Hrank;
    try lia; now split.
Qed.

Lemma feature_map_rank_required_witness :
  length (shape Sample.one11) <= 2 /\
  project_feature Sample.one11 Sample.one11 = None /\
  attention_forward Sample.one11 Sample.one11 Sample.zero11 Sample.zero11
    Sample.zero1 Sample.one11 = None.
Proof.
  split; [simpl; lia|].
  apply (feature_map_rank_required Sample.one11). simpl. lia.
Defined.
